(** * kite-go-library: the market-data engine, embedded and verified

  A shallow embedding of [engine/engine.go] (storage frames, the frame
  readers, the binary tick handler, the subscription rotation, the
  configuration step of [Serve]) and of [addToBatchAndWait] from
  [kite/kite_history.go], with the properties stated about them.

  Conventions.
  - Unsigned machine integers are [Z] with the wrap-around written out.
  - A Go slice is a window on a backing array: its visible elements and
    the spare capacity behind them ([Go.slice]).  A slice expression is
    checked against the capacity, an index against the length, as the Go
    runtime does; a failed check is a run-time panic.
  - A run-time panic ends the program; it is the [Panic] result.
  - Code of other packages that [engine.go] calls ([kite.Packet]'s parsers,
    the zstd codec, protobuf and JSON marshalling, [strconv.ParseFloat])
    is a field of a class ([Zstd], [PacketParser], [Marshalling],
    [Strconv]) that the definitions take as a parameter. *)

From Stdlib Require Import ZArith List Lia Bool String.
From Stdlib Require Import Floats.PrimFloat.
From stdpp Require Import base option list gmap strings.
Import ListNotations.
Local Open Scope Z_scope.

(** ** The Go run time: results, slices, big-endian integers *)

Module Go.

(** What running a piece of Go code gives: a value, or a panic. *)
Inductive res (A : Type) : Type :=
| Ok (a : A)
| Panic (why : string).
Arguments Ok {A} a.
Arguments Panic {A} why.

#[export] Instance res_ret : MRet res := fun A a => Ok a.
#[export] Instance res_bind : MBind res := fun A B k r =>
  match r with
  | Ok a => k a
  | Panic why => Panic why
  end.

Definition is_ok {A} (r : res A) : bool :=
  match r with Ok _ => true | Panic _ => false end.

(** A byte is a number below 256. *)
Definition byte := Z.

(** [byte(v)]: conversion of an unsigned integer to a byte keeps the low
    eight bits. *)
Definition to_byte (v : Z) : byte := Z.land v 255.

(** A slice of [T]: [elts] are the elements [s[0] .. s[len(s)-1]], [spare]
    is the rest of the backing array, up to the capacity. *)
Record slice (T : Type) : Type := Slice { elts : list T; spare : list T }.
Arguments Slice {T} elts spare.
Arguments elts {T} s.
Arguments spare {T} s.

Definition len {T} (s : slice T) : Z := Z.of_nat (length (elts s)).
Definition cap {T} (s : slice T) : Z :=
  Z.of_nat (length (elts s) + length (spare s)).

(** The backing array from the start of the slice. *)
Definition backing {T} (s : slice T) : list T := elts s ++ spare s.

(** A slice with no spare capacity. *)
Definition exact {T} (l : list T) : slice T := Slice l [].

(** [s[lo:hi]]: panics unless [0 <= lo <= hi <= cap(s)]; the result may
    reach into the spare capacity. *)
Definition sub {T} (s : slice T) (lo hi : Z) : res (slice T) :=
  if (0 <=? lo) && (lo <=? hi) && (hi <=? cap s) then
    Ok (Slice (take (Z.to_nat (hi - lo)) (drop (Z.to_nat lo) (backing s)))
              (drop (Z.to_nat hi) (backing s)))
  else Panic "slice bounds out of range".

(** [s[lo:]]: the upper bound is [len(s)], so it panics unless
    [0 <= lo <= len(s)]. *)
Definition from {T} (s : slice T) (lo : Z) : res (slice T) :=
  if (0 <=? lo) && (lo <=? len s) then
    Ok (Slice (drop (Z.to_nat lo) (elts s)) (spare s))
  else Panic "slice bounds out of range".

(** [binary.BigEndian]: the value of a byte string read most significant
    byte first. *)
Definition be_value (bs : list byte) : Z :=
  fold_left (fun acc b => acc * 256 + b) bs 0.

(** [binary.BigEndian.Uint16(b)] and [Uint64(b)]: they index [b[1]],
    [b[7]] first, so a shorter slice panics. *)
Definition Uint16 (b : slice byte) : res Z :=
  if 2 <=? len b then Ok (be_value (take 2 (elts b)))
  else Panic "index out of range".

Definition Uint64 (b : slice byte) : res Z :=
  if 8 <=? len b then Ok (be_value (take 8 (elts b)))
  else Panic "index out of range".

(** [binary.BigEndian.PutUint64(b, v)] on a fresh [make([]byte, 8)]. *)
Definition PutUint64 (v : Z) : list byte :=
  [ to_byte (Z.shiftr v 56); to_byte (Z.shiftr v 48);
    to_byte (Z.shiftr v 40); to_byte (Z.shiftr v 32);
    to_byte (Z.shiftr v 24); to_byte (Z.shiftr v 16);
    to_byte (Z.shiftr v 8);  to_byte v ].

(** Unsigned arithmetic wraps. *)
Definition wrap16 (v : Z) : Z := v mod 2 ^ 16.
Definition wrap64 (v : Z) : Z := v mod 2 ^ 64.

End Go.

Import Go.

(** A Go call that returns [(value, error)]: the value, or the error text. *)
Definition or_error (A : Type) : Type := (A + string)%type.

(** ** Package [storage]: the protobuf records of the log *)

Module storage.

Record TickerMap : Type := mkTickerMap {
  tm_Token : Z;
  tm_TradingSymbol : string;
  tm_Exchange : string;
  tm_Name : string;
  tm_Expiry : string;
  tm_Strike : float;
  tm_TickSize : float;
  tm_LotSize : Z;
  tm_InstrumentType : string;
  tm_Segment : string
}.

Record Order : Type := mkOrder { Price : Z; Quantity : Z; Orders : Z }.

Record Depth : Type := mkDepth { Buy : list Order; Sell : list Order }.

Record Ticker : Type := mkTicker {
  Token : Z;
  LastPrice : Z;
  LastTradedQuantity : Z;
  AverageTradedPrice : Z;
  VolumeTraded : Z;
  TotalBuy : Z;
  TotalSell : Z;
  High : Z;
  Low : Z;
  Open : Z;
  Close : Z;
  PriceChange : Z;
  LastTradedTimestamp : Z;
  OI : Z;
  OIHigh : Z;
  OILow : Z;
  ExchangeTimestamp : Z;
  LotSize : Z;
  Depth_ : Depth
}.

End storage.

Import storage.

(** ** The packages [engine.go] calls *)

(** [github.com/klauspost/compress/zstd], through [compress] and
    [decompress] of [engine.go], which only wrap an encoder and a decoder
    around a buffer and pass their errors on. *)
Class Zstd : Type := {
  compress : list byte -> or_error (list byte);
  decompress : list byte -> or_error (list byte)
}.

(** [proto.Unmarshal] into a [storage.Map] (its [TickerMap] entries) and
    [json.Marshal] of a [storage.Ticker] (only its error is looked at). *)
Class Marshalling : Type := {
  proto_Unmarshal : list byte -> or_error (list TickerMap);
  json_Marshal : Ticker -> or_error (list byte)
}.

(** [kite.Packet]'s parsers: [ParseBinary(size)] gives the numeric fields
    of the first [size] bytes, [ParseMarketDepth] the numeric fields of a
    depth ladder. *)
Class PacketParser : Type := {
  ParseBinary : list byte -> Z -> list Z;
  ParseMarketDepth : list byte -> list Z
}.

(** ** Storage frames: [appendToFile] and the frame readers *)

(** The files under [./binary]: their contents, and the names that cannot
    be opened for writing. *)
Record filesystem : Type := mkFs {
  files : gmap string (list byte);
  denied : gset string
}.

(** What [Serve] and [Read] write to the log or hand on. *)
Inductive event : Type :=
| Logged (line : string)
| LoggedUnknownLength (n : Z) (values : list Z)
| Parsed (packet : list byte)
| Produced (ticker : Ticker)
| Appended (filename : string)
| Unsubscribe (tokens : list Z)
| SubscribeFull (tokens : list Z)
| Slept.

(** How a run ends: the loop is left, the program panics, or the model's
    step budget is used up. *)
Inductive outcome : Type :=
| Done
| Crashed (why : string)
| OutOfFuel.

(** [compressedData] in [appendToFile] and [saveFile]: a failed
    compression is logged only, and the nil slice is carried on. *)
Definition compressed `{Zstd} (data : list byte) : list byte :=
  match compress data with inl c => c | inr _ => [] end.

(** The frame [appendToFile] writes for [data]: the length of the
    compressed data in eight bytes, then the compressed data. *)
Definition frame `{Zstd} (data : list byte) : list byte :=
  let compressedData := compressed data in
  PutUint64 (Z.of_nat (length compressedData)) ++ compressedData.

Definition appendToFile `{Zstd} (fs : filesystem) (filename : string)
    (data : list byte) : filesystem * option string :=
  let bytesToSave := frame data in
  if decide (filename ∈ denied fs) then (fs, Some "open: permission denied")
  else
    (mkFs (<[filename := default [] (files fs !! filename) ++ bytesToSave]>
             (files fs))
          (denied fs),
     None).

(** The loop of [readMap]: [m] is [tokenNameMap].  An iteration consumes at
    least eight bytes, so [fuel] above [len(b)] is never used up. *)
Fixpoint readMap_loop `{Zstd} `{Marshalling} (fuel : nat) (b : slice byte)
    (m : gmap Z TickerMap) : option (res (or_error (gmap Z TickerMap))) :=
  if 8 <? len b then
    match fuel with
    | O => None
    | S fuel' =>
      match hd8 ← sub b 0 8; Uint64 hd8 with
      | Panic why => Some (Panic why)
      | Ok sizeOfPacket =>
        match sub b 8 (wrap64 (sizeOfPacket + 8)) with
        | Panic why => Some (Panic why)
        | Ok body =>
          match decompress (elts body) with
          | inr err => Some (Ok (inr err))
          | inl packet =>
            match from b (wrap64 (sizeOfPacket + 8)) with
            | Panic why => Some (Panic why)
            | Ok b' =>
              match proto_Unmarshal packet with
              | inr err => Some (Ok (inr err))
              | inl entries =>
                readMap_loop fuel' b'
                  (fold_left (fun acc ts => <[tm_Token ts := ts]> acc)
                             entries m)
              end
            end
          end
        end
      end
    end
  else Some (Ok (inl m)).

(** [readMap], from what [os.ReadFile] returned. *)
Definition readMap `{Zstd} `{Marshalling} (file : or_error (slice byte))
    : option (res (or_error (gmap Z TickerMap))) :=
  match file with
  | inr err => Some (Ok (inr err))
  | inl b => readMap_loop (S (length (elts b))) b ∅
  end.

(** The frame loop of [Read]: a failed decompression is logged and the nil
    packet is parsed; the trace records what was logged and parsed. *)
Fixpoint Read_loop `{Zstd} (fuel : nat) (b : slice byte)
    : list event * outcome :=
  if 8 <? len b then
    match fuel with
    | O => ([], OutOfFuel)
    | S fuel' =>
      match hd8 ← sub b 0 8; Uint64 hd8 with
      | Panic why => ([], Crashed why)
      | Ok sizeOfPacket =>
        match sub b 8 (wrap64 (sizeOfPacket + 8)) with
        | Panic why => ([], Crashed why)
        | Ok body =>
          let (logs, packet) :=
            match decompress (elts body) with
            | inr err => ([Logged err], [])
            | inl packet => ([], packet)
            end in
          match from b (wrap64 (sizeOfPacket + 8)) with
          | Panic why => (logs ++ [Parsed packet], Crashed why)
          | Ok b' =>
            let (tr, o) := Read_loop fuel' b' in
            (logs ++ Parsed packet :: tr, o)
          end
        end
      end
    end
  else ([], Done).

Definition Read_frames `{Zstd} (b : slice byte) : list event * outcome :=
  Read_loop (S (length (elts b))) b.

(** ** The binary tick handler of [Serve] *)

Definition no_depth : Depth := mkDepth [] [].

(** The ticker as [Serve] leaves it after the [switch] on [len(values)]:
    fields not assigned keep the zero value.  The default case assigns
    nothing more and logs.  [mkTicker] takes the fields in the order of the
    record: Token, LastPrice, LastTradedQuantity, AverageTradedPrice,
    VolumeTraded, TotalBuy, TotalSell, High, Low, Open, Close, PriceChange,
    LastTradedTimestamp, OI, OIHigh, OILow, ExchangeTimestamp, LotSize,
    Depth. *)
Definition header_ticker (values : list Z) : Ticker * list event :=
  let v i := nth i values 0 in
  let token := if 2 <=? Z.of_nat (length values) then v 0%nat else 0 in
  let lastPrice := if 2 <=? Z.of_nat (length values) then v 1%nat else 0 in
  match length values with
  | 2%nat =>
    (mkTicker token lastPrice 0 0 0 0 0 0 0 0 0 0 0 0 0 0 0 0 no_depth, [])
  | 7%nat =>
    (mkTicker token lastPrice 0 0 0 0 0
       (v 2%nat) (v 3%nat) (v 4%nat) (v 5%nat) 0 0 0 0 0 (v 6%nat) 0 no_depth,
     [])
  | 8%nat =>
    (mkTicker token lastPrice 0 0 0 0 0
       (v 2%nat) (v 3%nat) (v 4%nat) (v 5%nat) (v 6%nat) 0 0 0 0 (v 7%nat) 0
       no_depth,
     [])
  | 11%nat =>
    (mkTicker token lastPrice
       (v 2%nat) (v 3%nat) (v 4%nat) (v 5%nat) (v 6%nat)
       (v 7%nat) (v 8%nat) (v 9%nat) (v 10%nat) 0 0 0 0 0 0 0 no_depth,
     [])
  | 16%nat =>
    (mkTicker token lastPrice
       (v 2%nat) (v 3%nat) (v 4%nat) (v 5%nat) (v 6%nat)
       (v 7%nat) (v 8%nat) (v 9%nat) (v 10%nat) 0
       (v 11%nat) (v 12%nat) (v 13%nat) (v 14%nat) (v 15%nat) 0 no_depth,
     [])
  | _ =>
    (mkTicker token lastPrice 0 0 0 0 0 0 0 0 0 0 0 0 0 0 0 0 no_depth,
     [LoggedUnknownLength (Z.of_nat (length values)) values])
  end.

(** The depth loop: three values a step, to the buy side while it is
    shorter than [lobDepth], to the sell side after.  One or two values
    left over make [values[1]] or [values[2]] panic. *)
Fixpoint depth_loop (lobDepth : Z) (values : list Z) (d : Depth) : res Depth :=
  match values with
  | [] => Ok d
  | qty :: price :: orders :: rest =>
    if Z.of_nat (length (Buy d)) <? lobDepth then
      depth_loop lobDepth rest
        (mkDepth (Buy d ++ [mkOrder price qty orders]) (Sell d))
    else
      depth_loop lobDepth rest
        (mkDepth (Buy d) (Sell d ++ [mkOrder price qty orders]))
  | _ => Panic "index out of range"
  end.

Definition set_Depth (t : Ticker) (d : Depth) : Ticker :=
  mkTicker (Token t) (LastPrice t) (LastTradedQuantity t)
    (AverageTradedPrice t) (VolumeTraded t) (TotalBuy t) (TotalSell t)
    (High t) (Low t) (Open t) (Close t) (PriceChange t)
    (LastTradedTimestamp t) (OI t) (OIHigh t) (OILow t)
    (ExchangeTimestamp t) (LotSize t) d.

Definition set_LotSize (t : Ticker) (lotSize : Z) : Ticker :=
  mkTicker (Token t) (LastPrice t) (LastTradedQuantity t)
    (AverageTradedPrice t) (VolumeTraded t) (TotalBuy t) (TotalSell t)
    (High t) (Low t) (Open t) (Close t) (PriceChange t)
    (LastTradedTimestamp t) (OI t) (OIHigh t) (OILow t)
    (ExchangeTimestamp t) lotSize (Depth_ t).

(** Lines 423-503: the ticker decoded from one packet, with what was
    logged on the way. *)
Definition decode_packet `{PacketParser} (packet : slice byte)
    : list event * res Ticker :=
  let values := ParseBinary (elts packet) (Z.min 64 (len packet)) in
  let (ticker, logs) := header_ticker values in
  if 64 <? len packet then
    match from packet 64 with
    | Panic why => (logs, Panic why)
    | Ok packet' =>
      let values := ParseMarketDepth (elts packet') in
      let lobDepth := Z.of_nat (length values) / 6 in
      (logs, d ← depth_loop lobDepth values (Depth_ ticker);
             mret (set_Depth ticker d))
    end
  else (logs, Ok ticker).

(** Lines 508-513: the lot size is read through the pointer the map gives
    for the token; for a token that is not a key the pointer is nil and the
    field access panics. *)
Definition enrich (tokenTradingsymbolMap : gmap Z TickerMap) (ticker : Ticker)
    : res Ticker :=
  match tokenTradingsymbolMap !! Token ticker with
  | None => Panic "nil pointer dereference"
  | Some tokenData => Ok (set_LotSize ticker (tm_LotSize tokenData))
  end.

(** One turn of the packet loop (lines 420-513) on the rest of the message:
    the events, and the message left for the next turn. *)
Definition packet_step `{PacketParser} `{Marshalling}
    (tokenTradingsymbolMap : gmap Z TickerMap) (message : slice byte)
    : list event * res (slice byte) :=
  match
    hd2 ← sub message 0 2;
    packetSize ← Uint16 hd2;
    packet ← sub message 2 (wrap16 (packetSize + 2));
    mret (packetSize, packet)
  with
  | Panic why => ([], Panic why)
  | Ok (packetSize, packet) =>
    let (logs, decoded) := decode_packet packet in
    match decoded with
    | Panic why => (logs, Panic why)
    | Ok ticker =>
      match
        if wrap16 (packetSize + 2) <? len message
        then from message (wrap16 (packetSize + 2))
        else Ok message
      with
      | Panic why => (logs, Panic why)
      | Ok message' =>
        match enrich tokenTradingsymbolMap ticker with
        | Panic why => (logs, Panic why)
        | Ok ticker' =>
          (logs ++ Produced ticker' ::
             match json_Marshal ticker' with
             | inr err => [Logged err]
             | inl _ => []
             end,
           Ok message')
        end
      end
    end
  end.

(** The packet loop: [numOfPackets] turns, unless one panics. *)
Fixpoint packet_loop `{PacketParser} `{Marshalling}
    (tokenTradingsymbolMap : gmap Z TickerMap) (numOfPackets : nat)
    (message : slice byte) : list event * outcome :=
  match numOfPackets with
  | O => ([], Done)
  | S n =>
    match packet_step tokenTradingsymbolMap message with
    | (evs, Panic why) => (evs, Crashed why)
    | (evs, Ok message') =>
      let (evs', o) := packet_loop tokenTradingsymbolMap n message' in
      (evs ++ evs', o)
    end
  end.

(** The trading windows, in minutes of the day. *)
Definition withinEquityTradingTime (nowTimeValue : Z) : bool :=
  (9 * 60 + 15 <=? nowTimeValue) && (nowTimeValue <=? 15 * 60 + 30).
Definition withinMCXTradingTime (nowTimeValue : Z) : bool :=
  (9 * 60 <=? nowTimeValue) && (nowTimeValue <=? 23 * 60 + 30).

(** The body of the binary-data handler for one [message] (lines 399-516);
    [date] is [time.Now().Format(dateFormatConcise)]. *)
Definition handle_message `{Zstd} `{PacketParser} `{Marshalling}
    (tokenTradingsymbolMap : gmap Z TickerMap) (nowTimeValue : Z)
    (date : string) (fs : filesystem) (message : slice byte)
    : filesystem * (list event * outcome) :=
  let filename :=
    ("./binary/market_data_equity_mcx_" ++ date ++ ".bin.zstd")%string in
  let (fs', saved) :=
    if withinEquityTradingTime nowTimeValue || withinMCXTradingTime nowTimeValue
    then (fst (appendToFile fs filename (elts message)), [Appended filename])
    else (fs, []) in
  match hd2 ← sub message 0 2; Uint16 hd2 with
  | Panic why => (fs', (saved, Crashed why))
  | Ok numOfPackets =>
    if 0 <? numOfPackets then
      match from message 2 with
      | Panic why => (fs', (saved, Crashed why))
      | Ok message' =>
        let (evs, o) :=
          packet_loop tokenTradingsymbolMap (Z.to_nat numOfPackets) message' in
        (fs', (saved ++ evs, o))
      end
    else (fs', (saved, Done))
  end.

(** ** The subscription rotation of [Serve] *)

(** [withinTradingTime]: a token of [mcxTokens] follows the commodity
    window, any other the equity window. *)
Definition withinTradingTime (mcxTokens : gset Z) (nowTimeValue : Z)
    (token : Z) : bool :=
  if decide (token ∈ mcxTokens) then withinMCXTradingTime nowTimeValue
  else withinEquityTradingTime nowTimeValue.

(** The inner [for start := 0; start < len(allTokens); start += n] loop
    (lines 294-351) of a run whose context is not cancelled; [n] is
    [int(instrumentsPerRequest)].  It gives the control messages sent, the
    flag [isSubscribed] it leaves, and how it ends.  The indices of the
    filter loop lie in [start, end), inside the slice.  [start + n] and
    [start - n] are written without wrap-around: they are what the code's
    64-bit [int]s give as long as they stay inside the range of [int],
    which they do for every [n >= 0] ([start] is below [len(allTokens)],
    and above zero only when [n] is). *)
Fixpoint rotation_loop (fuel : nat) (allTokens : slice Z) (mcxTokens : gset Z)
    (n nowTimeValue start : Z) (isSubscribed : bool)
    : list event * bool * outcome :=
  if start <? len allTokens then
    match fuel with
    | O => ([], isSubscribed, OutOfFuel)
    | S fuel' =>
      let end_ := if len allTokens <? start + n then len allTokens
                  else start + n in
      let prevStart := start - n in
      let unsub : res (list event * bool) :=
        if 0 <=? prevStart then
          if isSubscribed then
            prev ← sub allTokens prevStart start;
            mret ([Unsubscribe (elts prev)], false)
          else Ok ([], false)
        else Ok ([], isSubscribed) in
      match unsub with
      | Panic why => ([], isSubscribed, Crashed why)
      | Ok (evs1, isSubscribed1) =>
        let activeBatchTokens :=
          filter (fun t => withinTradingTime mcxTokens nowTimeValue t = true)
                 (take (Z.to_nat (end_ - start))
                       (drop (Z.to_nat start) (elts allTokens))) in
        let '(evs2, isSubscribed2) :=
          if 0 <? Z.of_nat (length activeBatchTokens)
          then ([SubscribeFull activeBatchTokens], true)
          else ([], false) in
        let '(evs3, isSubscribed3, o) :=
          rotation_loop fuel' allTokens mcxTokens n nowTimeValue (start + n)
                        isSubscribed2 in
        (evs1 ++ evs2 ++ Slept :: evs3, isSubscribed3, o)
      end
    end
  else ([], isSubscribed, Done).

(** One pass of the outer loop: the clock is read, then the batches are
    walked from [start = 0]. *)
Definition rotation_cycle (allTokens : slice Z) (mcxTokens : gset Z)
    (n nowTimeValue : Z) (isSubscribed : bool) : list event * bool * outcome :=
  rotation_loop (length (elts allTokens)) allTokens mcxTokens n nowTimeValue 0
                isSubscribed.

(** The outer [for]: one cycle for each clock reading of [nows], until a
    cycle does not end normally. *)
Fixpoint rotation (allTokens : slice Z) (mcxTokens : gset Z) (n : Z)
    (nows : list Z) (isSubscribed : bool) : list event * bool * outcome :=
  match nows with
  | [] => ([], isSubscribed, Done)
  | nowTimeValue :: nows' =>
    match rotation_cycle allTokens mcxTokens n nowTimeValue isSubscribed with
    | (evs, isSubscribed', Done) =>
      let '(evs', isSubscribed'', o) :=
        rotation allTokens mcxTokens n nows' isSubscribed' in
      (evs ++ evs', isSubscribed'', o)
    | stopped => stopped
    end
  end.

(** The tokens the connection is subscribed to after a run of control
    messages, starting from [subscribed]. *)
Definition apply_control (subscribed : gset Z) (e : event) : gset Z :=
  match e with
  | SubscribeFull tokens => subscribed ∪ list_to_set tokens
  | Unsubscribe tokens => subscribed ∖ list_to_set tokens
  | _ => subscribed
  end.

Definition in_flight (evs : list event) : gset Z :=
  fold_left apply_control evs ∅.

(** ** The configuration step of [Serve] (lines 267-274) *)

(** [strconv.ParseFloat(s, 64)] gives a value and an error, both. *)
Class Strconv : Type := {
  ParseFloat : string -> float * option string
}.

(** How [Serve] goes on after reading its two settings. *)
Inductive startup : Type :=
| EngineProceeds (rotationInterval instrumentsPerRequest : float)
                 (logs : list event)
| FatalConfigurationError (why : string).

Definition log_error (err : option string) : list event :=
  match err with
  | Some e => [Logged e]
  | None => []
  end.

Definition Serve_config `{Strconv} (Getenv : string -> string) : startup :=
  let (rotationInterval, err1) := ParseFloat (Getenv "TA_FEED_TIMEOUT") in
  let (instrumentsPerRequest, err2) :=
    ParseFloat (Getenv "TA_FEED_INSTRUMENT_COUNT") in
  EngineProceeds rotationInterval instrumentsPerRequest
                 (log_error err1 ++ log_error err2).

(** A setting as the specification wants it: it parses, to a positive
    number. *)
Definition spec_valid_setting `{Strconv} (s : string) : bool :=
  match ParseFloat s with
  | (v, None) => PrimFloat.ltb 0 v
  | (_, Some _) => false
  end.

(** ** Package [kite]: [addToBatchAndWait] *)

Module kite.

Record KiteTicker : Type := mkKiteTicker {
  kt_Token : Z;
  kt_TradingSymbol : string;
  kt_LastPrice : float
}.

Record Instrument : Type := mkInstrument { inst_Token : Z }.

(** A ticker client, by what its [SubscribeFull] answers for a list of
    tokens. *)
Record TickerClient : Type := mkClient {
  client_SubscribeFull : list Z -> option string
}.

Inductive wait_error : Type :=
| TokensNotLoaded
| InstrumentNotFound (symbolKey : string)
| NoActiveClients
| SubscribeFailed (token : Z) (err : string)
| TimeoutWaiting (symbolKey : string).

(** Durations in nanoseconds, as [time.Duration]. *)
Definition Millisecond : Z := 1000000.
Definition Second : Z := 1000 * Millisecond.
Definition maxWaitTime : Z := 5 * Second.
Definition checkInterval : Z := 100 * Millisecond.

(** The loop over [kite.TickerClients]; a nil client is skipped. *)
Fixpoint subscribe_all (clients : list (option TickerClient)) (token : Z)
    : option wait_error :=
  match clients with
  | [] => None
  | None :: rest => subscribe_all rest token
  | Some client :: rest =>
    match client_SubscribeFull client [token] with
    | Some err => Some (SubscribeFailed token err)
    | None => subscribe_all rest token
    end
  end.

(** [exists && ticker.LastPrice > 0] for one key of [TickSymbolMap]. *)
Definition has_price (TickSymbolMap : gmap string KiteTicker) (key : string)
    : bool :=
  match TickSymbolMap !! key with
  | Some ticker => PrimFloat.ltb 0 (kt_LastPrice ticker)
  | None => false
  end.

(** The wait loop (lines 457-475).  Each turn reads the clock and, inside
    the limit, the map as the ticker goroutine has left it by then: [polls]
    lists these readings, [time.Since(startTime)] first.  [None] when the
    readings end before the loop does; otherwise the error returned ([None]
    for nil) and the number of times the map was looked at. *)
Fixpoint wait_loop (symbolKey tradingSymbol : string)
    (polls : list (Z * gmap string KiteTicker)) (checks : nat)
    : option (option wait_error * nat) :=
  match polls with
  | [] => None
  | (since, TickSymbolMap) :: polls' =>
    if since <? maxWaitTime then
      if has_price TickSymbolMap symbolKey then Some (None, S checks)
      else if has_price TickSymbolMap tradingSymbol then Some (None, S checks)
      else wait_loop symbolKey tradingSymbol polls' (S checks)
    else Some (Some (TimeoutWaiting symbolKey), checks)
  end.

Definition addToBatchAndWait
    (BrokerInstrumentTokens : option (gmap string Instrument))
    (TickerClients : list (option TickerClient))
    (polls : list (Z * gmap string KiteTicker))
    (exchange tradingSymbol : string) : option (option wait_error * nat) :=
  match BrokerInstrumentTokens with
  | None => Some (Some TokensNotLoaded, O)
  | Some tokens =>
    let symbolKey := (exchange ++ ":" ++ tradingSymbol)%string in
    match tokens !! symbolKey with
    | None => Some (Some (InstrumentNotFound symbolKey), O)
    | Some instrument =>
      if decide (length TickerClients = O)
      then Some (Some NoActiveClients, O)
      else
        match subscribe_all TickerClients (inst_Token instrument) with
        | Some err => Some (Some err, O)
        | None => wait_loop symbolKey tradingSymbol polls O
        end
    end
  end.

End kite.

(** ** Stand-ins to run the definitions on concrete inputs *)

(** A codec in place of zstd for the examples.  It writes nothing for an
    empty input, as an encoder does that makes no frame for an empty
    input; whether the zstd encoder of a build does so is a matter of its
    version, and no statement about [compress] rests on this stand-in.
    Any other input is stored behind the byte 40, and only what it wrote
    is accepted back. *)
Definition stored_compress (input : list byte) : or_error (list byte) :=
  match input with
  | [] => inl []
  | _ => inl (40 :: input)
  end.

Definition stored_decompress (input : list byte) : or_error (list byte) :=
  match input with
  | [] => inl []
  | 40 :: data => inl data
  | _ => inr "invalid input: magic number mismatch"%string
  end.

Definition stored_zstd : Zstd := Build_Zstd stored_compress stored_decompress.

(** The 32-bit big-endian words of a byte string; bytes left over at the
    end make no word. *)
Fixpoint words32 (bs : list byte) : list Z :=
  match bs with
  | b0 :: b1 :: b2 :: b3 :: rest => be_value [b0; b1; b2; b3] :: words32 rest
  | _ => []
  end.

(** Modelled from the spec: [Packet.ParseBinary] and
    [Packet.ParseMarketDepth] of package [kite] are not among the sources;
    the specification has the header as a sequence of numeric fields and the
    ladder as groups of three fields (quantity, price, orderCount).  Here
    every field is a 32-bit big-endian word. *)
Definition words_parser : PacketParser :=
  Build_PacketParser
    (fun packet size => words32 (take (Z.to_nat size) packet))
    words32.

(** Marshalling for the examples: a map file holds one byte a token, with
    that lot size; JSON marshalling of a ticker does not fail. *)
Definition bytes_marshalling : Marshalling :=
  Build_Marshalling
    (fun packet =>
       inl (map (fun b => mkTickerMap b "" "" "" "" 0%float 0%float b "" "")
                packet))
    (fun _ => inl []).

(** [strconv.ParseFloat] on the strings of the examples: the README's
    values, and the empty string of an unset variable. *)
Definition table_strconv : Strconv :=
  Build_Strconv (fun s =>
    if decide (s = "2"%string) then (2%float, None)
    else if decide (s = "3000"%string) then (3000%float, None)
    else if decide (s = "-5"%string) then ((-5)%float, None)
    else (0%float, Some "strconv.ParseFloat: parsing: invalid syntax"%string)).

(** The file [StorageWriter] leaves: [appendToFile] for each record in
    turn. *)
Definition write_all `{Zstd} (fs : filesystem) (filename : string)
    (records : list (list byte)) : filesystem :=
  fold_left (fun fs data => fst (appendToFile fs filename data)) records fs.

Definition file_contents (fs : filesystem) (filename : string) : list byte :=
  default [] (files fs !! filename).

(** A log whose second frame declares five bytes and has two: one complete
    frame (length 4), then the length prefix 5 and the bytes 40, 9. *)
Definition truncated_log : list byte :=
  [0; 0; 0; 0; 0; 0; 0; 4; 40; 1; 2; 3;
   0; 0; 0; 0; 0; 0; 0; 5; 40; 9].

(** The empty file system, and three records for the examples; the second
    is empty. *)
Definition no_files : filesystem := mkFs ∅ ∅.
Definition sample_records : list (list byte) := [[1; 2; 3]; []; [7]].


(** A depth ladder as groups (quantity, price, orderCount), the values it
    is parsed to, and the order a group becomes. *)
Definition group : Type := (Z * Z * Z)%type.

Definition flat_groups (groups : list group) : list Z :=
  flat_map (fun '(qty, price, orders) => [qty; price; orders]) groups.

Definition order_of_group (g : group) : Order :=
  let '(qty, price, orders) := g in mkOrder price qty orders.

(** The field counts [Serve] has a case for. *)
Definition recognized_counts : list nat := [2; 7; 8; 11; 16]%nat.

(** An instrument map with the one token 5, of lot size 75. *)
Definition one_instrument : gmap Z TickerMap :=
  {[ 5 := mkTickerMap 5 "NIFTY" "NSE" "NIFTY" "" 0%float 0%float 75 "EQ"
                      "NSE" ]}.

(** A message of one packet of eight bytes: token 9, last price 100. *)
Definition message_token_9 : list byte :=
  [0; 1; 0; 8; 0; 0; 0; 9; 0; 0; 0; 100].

(** A message of two packets: twelve bytes (three fields: 5, 100, 7), then
    eight bytes (token 5, last price 101). *)
Definition message_three_fields : list byte :=
  [0; 2; 0; 12; 0; 0; 0; 5; 0; 0; 0; 100; 0; 0; 0; 7;
         0; 8;  0; 0; 0; 5; 0; 0; 0; 101].

(** The fields the code assigns whatever the field count: the first two
    values when there are at least two; every other header field zero. *)
Definition base_fields (t : Ticker) (values : list Z) : Prop :=
  Token t = (if 2 <=? Z.of_nat (length values) then nth 0 values 0 else 0)
  /\ LastPrice t
     = (if 2 <=? Z.of_nat (length values) then nth 1 values 0 else 0)
  /\ LastTradedQuantity t = 0 /\ AverageTradedPrice t = 0
  /\ VolumeTraded t = 0 /\ TotalBuy t = 0 /\ TotalSell t = 0
  /\ High t = 0 /\ Low t = 0 /\ Open t = 0 /\ Close t = 0
  /\ PriceChange t = 0 /\ LastTradedTimestamp t = 0 /\ OI t = 0
  /\ OIHigh t = 0 /\ OILow t = 0 /\ ExchangeTimestamp t = 0.

(** The log line of a marshalling error, if any. *)
Definition marshal_log `{Marshalling} (t : Ticker) : list event :=
  match json_Marshal t with
  | inr err => [Logged err]
  | inl _ => []
  end.

(** A payload of 64 bytes: the sixteen words 1, 2, ..., 16. *)
Definition full_packet : list byte :=
  flat_map (fun k => [0; 0; 0; k]) (seqZ 1 16).

(** A message body from its first packet on is the two bytes [hdr] of the
    packet size, the [payload], and the bytes [rest] of the packets after
    it; [spare] is the spare capacity of the slice.  This is the message
    the next turn of the packet loop works on, as lines 504-506 leave it:
    [message[packetSize+2:]] when bytes follow the packet, the message as
    it was when the packet is the last. *)
Definition rest_of_message (hdr payload rest spare : list byte) : slice byte :=
  match rest with
  | [] => Slice (hdr ++ payload ++ rest) spare
  | _ :: _ => Slice rest spare
  end.




(** A depth ladder of five groups, as twelve-byte groups of three words,
    and a payload of 124 bytes: the full header, then the ladder. *)
Definition sample_ladder : list group :=
  [(10, 100, 1); (20, 99, 2); (30, 101, 3); (40, 102, 4); (50, 103, 5)].

Definition ladder_bytes (groups : list group) : list byte :=
  flat_map (fun v => [0; 0; 0; v]) (flat_groups groups).

Definition depth_packet : list byte :=
  full_packet ++ ladder_bytes sample_ladder.

(** The universe of the batching scenario: five tokens, none of them a
    commodity token; and its rotation through two cycles at 10:00, in
    batches of two. *)
Definition five_tokens : slice Z := exact [1; 2; 3; 4; 5].

Definition two_cycles : list event * bool * outcome :=
  rotation five_tokens ∅ 2 [600; 600] true.

(** An environment with no variable set: [os.Getenv] gives the empty
    string. *)
Definition unset_env : string -> string := fun _ => ""%string.

(** A float that compares equal to zero. *)
Definition is_zero (p : float) : Prop := p = 0%float \/ p = (-0)%float.

(** The entry of [cache] under [key], if there is one, has last price
    zero. *)
Definition zero_or_absent (cache : gmap string kite.KiteTicker) (key : string)
    : Prop :=
  match cache !! key with
  | Some ticker => is_zero (kite.kt_LastPrice ticker)
  | None => True
  end.

(** Readings of the wait loop for the examples: the tick is there with
    last price zero, under one key and then under the other, until the
    clock passes five seconds. *)
Definition zero_price_polls : list (Z * gmap string kite.KiteTicker) :=
  [ (0, {[ "NSE:INFY"%string := kite.mkKiteTicker 7 "INFY" 0%float ]});
    (100 * kite.Millisecond,
     {[ "INFY"%string := kite.mkKiteTicker 7 "INFY" (-0)%float ]});
    (5 * kite.Second,
     {[ "INFY"%string := kite.mkKiteTicker 7 "INFY" 0%float ]}) ].

(** ** More of [engine.go]: the map snapshot *)

(** [saveFile]: the same frame as [appendToFile], written to a file that
    [os.Create] makes new or empties (the line it logs is left out). *)
Definition saveFile `{Zstd} (fs : filesystem) (filePath : string)
    (data : list byte) : filesystem * option string :=
  let bytesToSave := frame data in
  if decide (filePath ∈ denied fs) then (fs, Some "open: permission denied")
  else (mkFs (<[filePath := bytesToSave]> (files fs)) (denied fs), None).

(** [os.ReadFile]: the contents as a slice, with some spare capacity
    [extra] behind them, or the error for a missing file. *)
Definition ReadFile (fs : filesystem) (name : string) (extra : list byte)
    : or_error (slice byte) :=
  match files fs !! name with
  | Some contents => inl (Slice contents extra)
  | None => inr "open: no such file or directory"%string
  end.

Definition map_file (dateStr : string) : string :=
  ("./binary/map_" ++ dateStr ++ ".proto.zstd")%string.

(** [readMap(dateStr)] on the file system. *)
Definition readMap_of `{Zstd} `{Marshalling} (fs : filesystem)
    (dateStr : string) (extra : list byte)
    : option (res (or_error (gmap Z TickerMap))) :=
  readMap (ReadFile fs (map_file dateStr) extra).

(** [tokenNameMap] after the entries of one or more frames: a later entry
    replaces an earlier one of the same token. *)
Definition token_map (entries : list TickerMap) (m : gmap Z TickerMap)
    : gmap Z TickerMap :=
  fold_left (fun acc ts => <[tm_Token ts := ts]> acc) entries m.

(** A frame as it lies in a file, for a payload that is already
    compressed. *)
Definition raw_frame (c : list byte) : list byte :=
  PutUint64 (Z.of_nat (length c)) ++ c.

(** A payload the stand-in codec does not accept, as a corrupt frame has
    it. *)
Definition corrupt_payload : list byte := [1; 2].

(** A message that announces three packets and holds one (token 5, last
    price 100), after its two count bytes. *)
Definition one_packet_rest : list byte := [0; 8; 0; 0; 0; 5; 0; 0; 0; 100].

(** A payload of 80 bytes: the full header, then sixteen bytes of ladder,
    which are four values, one more than a group. *)
Definition ragged_depth_packet : list byte :=
  full_packet ++ flat_map (fun v => [0; 0; 0; v]) [10; 100; 1; 20].

(** ** Reading a run of the rotation *)

(** The tokens of the batch at [start] that are inside their trading
    window, and the chunk before it, as the loop computes them. *)
Definition active_batch (allTokens : slice Z) (mcxTokens : gset Z)
    (n nowTimeValue start : Z) : list Z :=
  filter (fun t => withinTradingTime mcxTokens nowTimeValue t = true)
         (take (Z.to_nat (Z.min n (len allTokens - start)))
               (drop (Z.to_nat start) (elts allTokens))).

Definition previous_chunk (allTokens : slice Z) (n start : Z) : list Z :=
  take (Z.to_nat n) (drop (Z.to_nat (start - n)) (elts allTokens)).

(** All the tokens a run of control messages subscribes, in order. *)
Definition subscribed_tokens (evs : list event) : list Z :=
  flat_map (fun e => match e with SubscribeFull l => l | _ => [] end) evs.

(** A control message of the right size for a batch of [n]: a subscription
    of one to [n] tokens, an unsubscription of exactly [n]. *)
Definition well_sized (n : Z) (e : event) : Prop :=
  match e with
  | SubscribeFull l => 0 < Z.of_nat (length l) <= n
  | Unsubscribe l => Z.of_nat (length l) = n
  | _ => True
  end.

(** The subscriptions in flight after [evs], from [subscribed] on. *)
Definition in_flight_from (subscribed : gset Z) (evs : list event) : gset Z :=
  fold_left apply_control evs subscribed.

(** Never more than [n] tokens in flight, before and after every message
    of [evs]. *)
Fixpoint bounded_along (n : Z) (subscribed : gset Z) (evs : list event)
    : Prop :=
  Z.of_nat (size subscribed) <= n
  /\ match evs with
     | [] => True
     | e :: evs' => bounded_along n (apply_control subscribed e) evs'
     end.

(** ** More of [engine.go] and [kite_history.go]: the tick cache *)

(** The ticker-data handler of [Serve] on one tick (lines 364-372): the
    tick is stored under its trading symbol, unless that is empty, and
    under the "exchange:symbol" name [kite.TokenSymbolMap] has for its
    token, if it has one. *)
Definition store_tick (TokenSymbolMap : gmap Z string)
    (TickSymbolMap : gmap string kite.KiteTicker) (ticker : kite.KiteTicker)
    : gmap string kite.KiteTicker :=
  let m1 :=
    if decide (kite.kt_TradingSymbol ticker = ""%string) then TickSymbolMap
    else <[kite.kt_TradingSymbol ticker := ticker]> TickSymbolMap in
  match TokenSymbolMap !! kite.kt_Token ticker with
  | Some tokenSymbol => <[tokenSymbol := ticker]> m1
  | None => m1
  end.

Inductive price_error : Type :=
| WebsocketNotInitialized
| WebsocketDataNotAvailable
| SymbolNotFound (symbolKey : string)
| FailedToAddToBatch (err : kite.wait_error)
| StillNotAvailable (symbolKey : string).

(** [getLastPriceFromWebSocket]: the entry under "exchange:symbol", else
    the entry under the bare symbol; [None] for the map is the nil map. *)
Definition getLastPriceFromWebSocket
    (TickSymbolMap : option (gmap string kite.KiteTicker))
    (exchange tradingSymbol : string) : float + price_error :=
  match TickSymbolMap with
  | None => inr WebsocketDataNotAvailable
  | Some m =>
    let symbolKey := (exchange ++ ":" ++ tradingSymbol)%string in
    match m !! symbolKey with
    | Some ticker => inl (kite.kt_LastPrice ticker)
    | None =>
      match m !! tradingSymbol with
      | Some ticker => inl (kite.kt_LastPrice ticker)
      | None => inr (SymbolNotFound symbolKey)
      end
    end
  end.

(** [getLastPriceFromWebSocketWithPriority].  The map is read when the call
    starts ([before]), at the readings of the wait ([polls]) and once more
    after the wait ([after]).  [None] when the readings end before the wait
    does. *)
Definition getLastPriceFromWebSocketWithPriority
    (BrokerInstrumentTokens : option (gmap string kite.Instrument))
    (TickerClients : list (option kite.TickerClient))
    (before : option (gmap string kite.KiteTicker))
    (polls : list (Z * gmap string kite.KiteTicker))
    (after : option (gmap string kite.KiteTicker))
    (exchange tradingSymbol : string) : option (float + price_error) :=
  match before with
  | None => Some (inr WebsocketNotInitialized)
  | Some _ =>
    match getLastPriceFromWebSocket before exchange tradingSymbol with
    | inl price => Some (inl price)
    | inr _ =>
      match kite.addToBatchAndWait BrokerInstrumentTokens TickerClients polls
                                   exchange tradingSymbol with
      | None => None
      | Some (Some err, _) => Some (inr (FailedToAddToBatch err))
      | Some (None, _) =>
        match getLastPriceFromWebSocket after exchange tradingSymbol with
        | inl price => Some (inl price)
        | inr _ =>
          Some (inr (StillNotAvailable
                       (exchange ++ ":" ++ tradingSymbol)%string))
        end
      end
    end
  end.

(** Readings of the wait for the examples: nothing, then a tick with last
    price 1520.5 under the bare symbol. *)
Definition priced_polls : list (Z * gmap string kite.KiteTicker) :=
  [ (0, ∅);
    (100 * kite.Millisecond,
     {[ "INFY"%string := kite.mkKiteTicker 7 "INFY" 1520.5%float ]}) ].

(** ** More of [Serve]: the universe of tokens (lines 239-255) *)

(** An entry of [kite.BrokerInstrumentTokens], by the fields the selection
    reads. *)
Record InstrumentData : Type := mkInstrumentData {
  id_Token : Z;
  id_Exchange : string;
  id_Name : string;
  id_Segment : string
}.

(** The condition of line 245. *)
Definition in_universe (data : InstrumentData) : bool :=
  bool_decide (id_Exchange data = "NSE"%string)
  || bool_decide (id_Exchange data = "NFO"%string)
  || bool_decide (id_Exchange data = "NFO-OPT"%string)
  || bool_decide (id_Name data = "SENSEX"%string)
  || bool_decide (id_Name data = "BANKEX"%string)
  || bool_decide (id_Segment data = "MCX-FUT"%string).

(** The loop of lines 244-255 over the instruments in the order the map
    yields them: [allTokens], [equityTokens] and [mcxTokens]. *)
Definition select_step (acc : list Z * gset Z * gset Z) (data : InstrumentData)
    : list Z * gset Z * gset Z :=
  let '(allTokens, equityTokens, mcxTokens) := acc in
  if in_universe data then
    if decide (id_Segment data = "MCX-FUT"%string)
    then (allTokens ++ [id_Token data], equityTokens,
          mcxTokens ∪ {[ id_Token data ]})
    else (allTokens ++ [id_Token data], equityTokens ∪ {[ id_Token data ]},
          mcxTokens)
  else acc.

Definition select_tokens (instruments : list InstrumentData)
    : list Z * gset Z * gset Z :=
  fold_left select_step instruments ([], ∅, ∅).

(** The trading window of an instrument at a clock reading. *)
Definition in_window (nowTimeValue : Z) (data : InstrumentData) : bool :=
  if decide (id_Segment data = "MCX-FUT"%string)
  then withinMCXTradingTime nowTimeValue
  else withinEquityTradingTime nowTimeValue.

(** Four instruments: two NSE stocks, a commodity future and a BSE stock
    that is not in the universe. *)
Definition sample_instruments : list InstrumentData :=
  [ mkInstrumentData 1 "NSE" "INFY" "NSE";
    mkInstrumentData 2 "MCX" "GOLD" "MCX-FUT";
    mkInstrumentData 3 "BSE" "TCS" "BSE";
    mkInstrumentData 4 "NSE" "SBIN" "NSE" ].

(** ** More of [kite_history.go]: the candles of
    [GetHistoricalMinutelyData] (lines 42-99) *)

Record Candle : Type := mkCandle {
  c_Timestamp : Z;
  c_Open : float;
  c_High : float;
  c_Low : float;
  c_Close : float;
  c_Volume : Z;
  c_OI : Z
}.

Definition new_Candle : Candle := mkCandle 0 0 0 0 0 0 0.

(** [time.Parse(layout, s)] followed by [UnixNano()], and the conversion
    [uint64(f)] of a float. *)
Class CandleParsers : Type := {
  time_Parse_UnixNano : string -> or_error Z;
  uint64_of_float : float -> Z
}.

(** The [switch i] on one field of a row, [text] being
    [fmt.Sprintf("%v", *d)]: the field of the candle that position [i]
    stands for is assigned, or the parse error is returned; positions
    from 7 on assign nothing. *)
Definition assign_field `{Strconv} `{CandleParsers} (i : nat) (text : string)
    (c : Candle) : or_error Candle :=
  let parsed (k : float -> Candle) : or_error Candle :=
    match ParseFloat text with
    | (v, None) => inl (k v)
    | (_, Some err) => inr err
    end in
  match i with
  | 0%nat =>
    match time_Parse_UnixNano text with
    | inl t => inl (mkCandle t (c_Open c) (c_High c) (c_Low c) (c_Close c)
                             (c_Volume c) (c_OI c))
    | inr err => inr err
    end
  | 1%nat => parsed (fun v => mkCandle (c_Timestamp c) v (c_High c) (c_Low c)
                                       (c_Close c) (c_Volume c) (c_OI c))
  | 2%nat => parsed (fun v => mkCandle (c_Timestamp c) (c_Open c) v (c_Low c)
                                       (c_Close c) (c_Volume c) (c_OI c))
  | 3%nat => parsed (fun v => mkCandle (c_Timestamp c) (c_Open c) (c_High c) v
                                       (c_Close c) (c_Volume c) (c_OI c))
  | 4%nat => parsed (fun v => mkCandle (c_Timestamp c) (c_Open c) (c_High c)
                                       (c_Low c) v (c_Volume c) (c_OI c))
  | 5%nat => parsed (fun v => mkCandle (c_Timestamp c) (c_Open c) (c_High c)
                                       (c_Low c) (c_Close c)
                                       (uint64_of_float v) (c_OI c))
  | 6%nat => parsed (fun v => mkCandle (c_Timestamp c) (c_Open c) (c_High c)
                                       (c_Low c) (c_Close c) (c_Volume c)
                                       (uint64_of_float v))
  | _ => inl c
  end.

(** The inner loop over the fields of one row.  The candle of the row
    lives in [store] at [ptr]; [candles] holds pointers.  Each field is
    assigned into the candle and then the pointer is appended, once for
    every field. *)
Fixpoint row_loop `{Strconv} `{CandleParsers} (i : nat) (fields : list string)
    (ptr : nat) (store : list Candle) (candles : list nat)
    : or_error (list Candle * list nat) :=
  match fields with
  | [] => inl (store, candles)
  | d :: rest =>
    match assign_field i d (default new_Candle (store !! ptr)) with
    | inr err => inr err
    | inl c => row_loop (S i) rest ptr (<[ptr := c]> store) (candles ++ [ptr])
    end
  end.

(** The outer loop: a new candle for each row. *)
Fixpoint rows_loop `{Strconv} `{CandleParsers} (rows : list (list string))
    (store : list Candle) (candles : list nat)
    : or_error (list Candle * list nat) :=
  match rows with
  | [] => inl (store, candles)
  | row :: rows' =>
    match row_loop 0 row (length store) (store ++ [new_Candle]) candles with
    | inr err => inr err
    | inl (store', candles') => rows_loop rows' store' candles'
    end
  end.

(** [GetHistoricalMinutelyData] from the decoded response on: the status
    code, the payload's status and message, and its candle rows if it has
    data.  The candles are given as the caller reads them through the
    pointers returned. *)
Definition candles_of_response `{Strconv} `{CandleParsers} (code : Z)
    (status message : string) (data : option (list (list string)))
    : or_error (list Candle) :=
  match data with
  | Some rows =>
    if code =? 200 then
      match rows_loop rows [] [] with
      | inr err => inr err
      | inl (store, candles) =>
        inl ((fun ptr => default new_Candle (store !! ptr)) <$> candles)
      end
    else inr (status ++ ":" ++ message)%string
  | None => inr (status ++ ":" ++ message)%string
  end.

(** The candle the fields of a row describe, from position [i] on. *)
Fixpoint candle_of_fields `{Strconv} `{CandleParsers} (i : nat)
    (fields : list string) (c : Candle) : or_error Candle :=
  match fields with
  | [] => inl c
  | d :: rest =>
    match assign_field i d c with
    | inr err => inr err
    | inl c' => candle_of_fields (S i) rest c'
    end
  end.

(** The pointers the loops append for [rows], the first row's candle being
    at [base]. *)
Fixpoint row_pointers (base : nat) (rows : list (list string)) : list nat :=
  match rows with
  | [] => []
  | row :: rows' => replicate (length row) base ++ row_pointers (S base) rows'
  end.

(** Parsers for the examples: a timestamp is read as the length of its
    text, a float converts to 7. *)
Definition sample_parsers : CandleParsers :=
  Build_CandleParsers (fun s => inl (Z.of_nat (String.length s)))
                      (fun _ => 7).

Definition sample_rows : list (list string) :=
  [ ["2024-01-02T09:15:00+0530"; "2"; "3000"; "2"; "3000"; "2"; "2"];
    ["2024-01-02T09:16:00+0530"; "3000"; "3000"; "2"; "2"; "2"; "2"] ]%string.

(** The candles [sample_rows] describe under [table_strconv] and
    [sample_parsers]. *)
Definition sample_candles : list Candle :=
  [ mkCandle 24 2 3000 2 3000 7 7; mkCandle 24 3000 3000 2 2 7 7 ].

(** A row whose second field is no number. *)
Definition unparsed_row : list string :=
  [ "2024-01-02T09:17:00+0530"; "n/a"; "2" ]%string.

(** * Properties *)

(** ** Big-endian integers and slices *)

Lemma to_byte_mod v : to_byte v = v mod 256.
Proof. unfold to_byte. change 255 with (Z.ones 8). by rewrite Z.land_ones. Qed.

Lemma be_value_PutUint64 v : 0 <= v < 2 ^ 64 -> be_value (PutUint64 v) = v.
Proof.
  intros Hv. unfold PutUint64, be_value. simpl fold_left.
  rewrite !to_byte_mod, !Z.shiftr_div_pow2 by lia.
  assert (H56 : v / 2 ^ 56 < 256).
  { apply Z.div_lt_upper_bound; lia. }
  assert (H56' : 0 <= v / 2 ^ 56) by (apply Z.div_pos; lia).
  rewrite (Z.mod_small (v / 2 ^ 56)) by lia.
  pose proof (Z.div_mod v 256 ltac:(lia)) as E0.
  pose proof (Z.div_mod (v / 2 ^ 8) 256 ltac:(lia)) as E1.
  pose proof (Z.div_mod (v / 2 ^ 16) 256 ltac:(lia)) as E2.
  pose proof (Z.div_mod (v / 2 ^ 24) 256 ltac:(lia)) as E3.
  pose proof (Z.div_mod (v / 2 ^ 32) 256 ltac:(lia)) as E4.
  pose proof (Z.div_mod (v / 2 ^ 40) 256 ltac:(lia)) as E5.
  pose proof (Z.div_mod (v / 2 ^ 48) 256 ltac:(lia)) as E6.
  rewrite Z.div_div in E1, E2, E3, E4, E5, E6 by lia.
  change (2 ^ 8 * 256) with (2 ^ 16) in E1.
  change (2 ^ 16 * 256) with (2 ^ 24) in E2.
  change (2 ^ 24 * 256) with (2 ^ 32) in E3.
  change (2 ^ 32 * 256) with (2 ^ 40) in E4.
  change (2 ^ 40 * 256) with (2 ^ 48) in E5.
  change (2 ^ 48 * 256) with (2 ^ 56) in E6.
  change 256 with (2 ^ 8) in E0 at 2.
  lia.
Qed.

Lemma PutUint64_length v : length (PutUint64 v) = 8%nat.
Proof. reflexivity. Qed.

Lemma sub_app {T} (pre mid post extra : list T) (lo hi : Z) :
  lo = Z.of_nat (length pre) ->
  hi = Z.of_nat (length pre + length mid) ->
  sub (Slice (pre ++ mid ++ post) extra) lo hi
  = Ok (Slice mid (post ++ extra)).
Proof.
  intros -> ->. unfold sub, cap, backing. cbn [elts spare].
  rewrite !length_app.
  replace ((0 <=? Z.of_nat (length pre))
           && (Z.of_nat (length pre) <=? Z.of_nat (length pre + length mid))
           && (Z.of_nat (length pre + length mid)
               <=? Z.of_nat (length pre + (length mid + length post)
                             + length extra)))
    with true by (symmetry; rewrite !andb_true_iff, !Z.leb_le; lia).
  f_equal. f_equal.
  - rewrite Nat2Z.id.
    replace (Z.to_nat (Z.of_nat (length pre + length mid)
                       - Z.of_nat (length pre))) with (length mid) by lia.
    rewrite <- !app_assoc, drop_app_length.
    by rewrite take_app_length.
  - rewrite Nat2Z.id, <- (length_app pre mid).
    replace ((pre ++ mid ++ post) ++ extra)
      with ((pre ++ mid) ++ post ++ extra) by (by rewrite <- !app_assoc).
    by rewrite drop_app_length.
Qed.

Lemma from_app {T} (pre post extra : list T) (lo : Z) :
  lo = Z.of_nat (length pre) ->
  from (Slice (pre ++ post) extra) lo = Ok (Slice post extra).
Proof.
  intros ->. unfold from, len. cbn [elts spare].
  rewrite length_app.
  replace ((0 <=? Z.of_nat (length pre))
           && (Z.of_nat (length pre) <=? Z.of_nat (length pre + length post)))
    with true by (symmetry; rewrite !andb_true_iff, !Z.leb_le; lia).
  by rewrite Nat2Z.id, drop_app_length.
Qed.

Lemma sub_ok_bounds {T} (s s' : slice T) (lo hi : Z) :
  sub s lo hi = Ok s' -> 0 <= lo <= hi /\ hi <= cap s.
Proof.
  unfold sub.
  destruct ((0 <=? lo) && (lo <=? hi) && (hi <=? cap s)) eqn:E; [|done].
  intros _. rewrite !andb_true_iff, !Z.leb_le in E. lia.
Qed.

Lemma from_ok_len {T} (s s' : slice T) (lo : Z) :
  from s lo = Ok s' -> 0 <= lo <= len s /\ len s' = len s - lo.
Proof.
  unfold from.
  destruct ((0 <=? lo) && (lo <=? len s)) eqn:E; [|done].
  rewrite andb_true_iff, !Z.leb_le in E. intros [= <-].
  split; [lia|]. unfold len in *. cbn [elts]. rewrite length_drop. lia.
Qed.

(** Reading the length prefix of a frame. *)
Lemma read_prefix (n : Z) (rest extra : list byte) :
  0 <= n < 2 ^ 64 ->
  (hd8 ← sub (Slice (PutUint64 n ++ rest) extra) 0 8; Uint64 hd8) = Ok n.
Proof.
  intros Hn.
  pose proof (sub_app [] (PutUint64 n) rest extra 0 8 eq_refl eq_refl) as E.
  rewrite app_nil_l in E. rewrite E. clear E.
  change (Uint64 (Slice (PutUint64 n) (rest ++ extra)) = Ok n).
  unfold Uint64, len. cbn [elts]. rewrite PutUint64_length.
  change (8 <=? Z.of_nat 8) with true. cbv iota.
  change (take 8 (PutUint64 n)) with (PutUint64 n).
  by rewrite be_value_PutUint64.
Qed.

(** ** Storage frames *)

Section Frames.
Context `{Zstd}.

(** One turn of the frame loop of [Read] on a complete frame. *)
Lemma Read_loop_frame (fuel : nat) (c rest extra : list byte) :
  Z.of_nat (length c) < 2 ^ 63 ->
  (0 < length c + length rest)%nat ->
  Read_loop (S fuel)
    (Slice (PutUint64 (Z.of_nat (length c)) ++ c ++ rest) extra)
  = (let (logs, packet) :=
       match decompress c with
       | inr err => ([Logged err], [])
       | inl packet => ([], packet)
       end in
     let (tr, o) := Read_loop fuel (Slice rest extra) in
     (logs ++ Parsed packet :: tr, o)).
Proof.
  intros Hc Hne. cbn [Read_loop].
  replace (8 <? len (Slice (PutUint64 (Z.of_nat (length c)) ++ c ++ rest)
                           extra)) with true.
  2:{ symmetry. apply Z.ltb_lt. unfold len. cbn [elts].
      rewrite !length_app, PutUint64_length. lia. }
  rewrite read_prefix by lia.
  unfold wrap64. rewrite Z.mod_small by lia.
  rewrite (sub_app (PutUint64 (Z.of_nat (length c))) c rest extra)
    by (rewrite ?PutUint64_length; lia).
  cbn [elts].
  rewrite (app_assoc (PutUint64 _) c rest).
  rewrite (from_app (PutUint64 (Z.of_nat (length c)) ++ c) rest extra)
    by (rewrite length_app, PutUint64_length; lia).
  reflexivity.
Qed.

(** The fuel [Read_frames] gives is enough: the frame loop of [Read] ends
    or panics on every slice. *)
Lemma Read_loop_fuel (fuel : nat) (b : slice byte) :
  len b <= Z.of_nat fuel + 8 -> snd (Read_loop fuel b) <> OutOfFuel.
Proof.
  revert b. induction fuel as [|fuel IH]; intros b Hlen.
  - cbn [Read_loop].
    by replace (8 <? len b) with false by (symmetry; apply Z.ltb_ge; lia).
  - cbn [Read_loop]. destruct (8 <? len b); [|done].
    destruct (hd8 ← sub b 0 8; Uint64 hd8) as [sizeOfPacket|why]; [|done].
    destruct (sub b 8 (wrap64 (sizeOfPacket + 8))) as [body|why] eqn:Hbody;
      [|done].
    apply sub_ok_bounds in Hbody as [Hlo _].
    destruct (decompress (elts body)) as [packet|err];
      (destruct (from b (wrap64 (sizeOfPacket + 8))) as [b'|why] eqn:Hb';
       [|done]);
      apply from_ok_len in Hb' as [_ Hb'];
      specialize (IH b' ltac:(lia));
      by destruct (Read_loop fuel b').
Qed.

Lemma Read_frames_total (b : slice byte) :
  snd (Read_frames b) <> OutOfFuel.
Proof. apply Read_loop_fuel. unfold len. lia. Qed.

(** The loop is done, whatever the fuel, once at most eight bytes are
    left. *)
Lemma Read_loop_short (fuel : nat) (b : slice byte) :
  len b <= 8 -> Read_loop fuel b = ([], Done).
Proof.
  intros Hb. destruct fuel; cbn [Read_loop];
    by replace (8 <? len b) with false by (symmetry; apply Z.ltb_ge; lia).
Qed.

Lemma frame_length (data : list byte) :
  length (frame data) = (8 + length (compressed data))%nat.
Proof. unfold frame, compressed. by rewrite length_app, PutUint64_length. Qed.

Lemma frames_length (records : list (list byte)) :
  (length records <= length (concat (map frame records)))%nat.
Proof.
  induction records as [|r rs IH]; cbn [map concat length]; [lia|].
  rewrite length_app, frame_length. lia.
Qed.

(** The loop walks through complete frames one record a turn, and goes on
    with what follows them. *)
Lemma Read_loop_frames (records : list (list byte)) (fuel : nat)
    (rest extra : list byte) :
  Forall (fun r => decompress (compressed r) = inl r) records ->
  Forall (fun r => Z.of_nat (length (compressed r)) < 2 ^ 63) records ->
  (rest = [] -> forall r, last records = Some r -> compressed r <> []) ->
  Read_loop (length records + fuel)
            (Slice (concat (map frame records) ++ rest) extra)
  = (let (tr, o) := Read_loop fuel (Slice rest extra) in
     (map Parsed records ++ tr, o)).
Proof.
  revert fuel. induction records as [|r rs IH]; intros fuel Hinv Hsz Hlast.
  - cbn [map concat length app Nat.add]. by destruct (Read_loop _ _).
  - apply Forall_cons in Hinv as [Hr Hinv].
    apply Forall_cons in Hsz as [Hc Hsz].
    cbn [map concat length Nat.add]. unfold frame at 1.
    fold (compressed r).
    replace (((PutUint64 (Z.of_nat (length (compressed r))) ++ compressed r)
              ++ concat (map frame rs)) ++ rest)
      with (PutUint64 (Z.of_nat (length (compressed r))) ++ compressed r
            ++ (concat (map frame rs) ++ rest))
      by (by rewrite <- !app_assoc).
    rewrite Read_loop_frame; [ | done | ].
    + rewrite Hr. rewrite IH; [ | done | done | ].
      * by destruct (Read_loop fuel _).
      * intros -> r' Hr'. apply Hlast; [ done | ].
        destruct rs; [done|exact Hr'].
    + destruct rs as [|r' rs].
      * destruct rest as [|x rest]; [|cbn [concat map app length]; lia].
        specialize (Hlast eq_refl r eq_refl).
        destruct (compressed r); [done|cbn [length]; lia].
      * cbn [map concat]. rewrite !length_app, frame_length. lia.
Qed.

(** A last frame whose declared length is above the bytes that follow it:
    either the slice expression of [decompress]'s argument is out of the
    capacity, or the advance [b[sizeOfPacket+8:]] is out of the length. *)
Lemma Read_loop_truncated (fuel : nat) (n : Z) (tail extra : list byte) :
  0 <= n < 2 ^ 64 ->
  (0 < length tail)%nat ->
  Z.of_nat (length tail) < n ->
  exists tr,
    Read_loop (S fuel) (Slice (PutUint64 n ++ tail) extra)
    = (tr, Crashed "slice bounds out of range").
Proof.
  intros Hn Hne Hlt. cbn [Read_loop].
  replace (8 <? len (Slice (PutUint64 n ++ tail) extra)) with true.
  2:{ symmetry. apply Z.ltb_lt. unfold len. cbn [elts].
      rewrite length_app, PutUint64_length. lia. }
  rewrite read_prefix by done.
  unfold sub at 1.
  destruct ((0 <=? 8) && (8 <=? wrap64 (n + 8))
            && (wrap64 (n + 8) <=? cap _)) eqn:Hsub; [|by eexists].
  apply andb_true_iff in Hsub as [Hsub _].
  apply andb_true_iff in Hsub as [_ Hhi]. apply Z.leb_le in Hhi.
  assert (Hwrap : wrap64 (n + 8) = n + 8).
  { unfold wrap64 in *. destruct (decide (n + 8 < 2 ^ 64)) as [?|Hge].
    - apply Z.mod_small. lia.
    - exfalso. replace (n + 8) with (n + 8 - 2 ^ 64 + 1 * 2 ^ 64) in Hhi by lia.
      rewrite Z.mod_add, Z.mod_small in Hhi by lia. lia. }
  unfold from.
  replace ((0 <=? wrap64 (n + 8))
           && (wrap64 (n + 8) <=? len (Slice (PutUint64 n ++ tail) extra)))
    with false.
  - destruct (decompress _); by eexists.
  - symmetry. apply andb_false_iff. right. apply Z.leb_gt.
    rewrite Hwrap. unfold len. cbn [elts].
    rewrite length_app, PutUint64_length. lia.
Qed.

(** After any complete frames, a truncated last frame ends the frame loop
    of [Read] in a panic: the records before it have been parsed, and the
    program does not go on. *)
Lemma Read_frames_truncated (records : list (list byte)) (n : Z)
    (tail extra : list byte) :
  Forall (fun r => decompress (compressed r) = inl r) records ->
  Forall (fun r => Z.of_nat (length (compressed r)) < 2 ^ 63) records ->
  0 <= n < 2 ^ 64 ->
  (0 < length tail)%nat ->
  Z.of_nat (length tail) < n ->
  exists tr,
    Read_frames
      (Slice (concat (map frame records) ++ PutUint64 n ++ tail) extra)
    = (map Parsed records ++ tr, Crashed "slice bounds out of range").
Proof.
  intros Hinv Hsz Hn Hne Hlt. unfold Read_frames. cbn [elts].
  pose proof (frames_length records) as Hlen.
  replace (S (length (concat (map frame records) ++ PutUint64 n ++ tail)))
    with (length records
          + S (length (concat (map frame records) ++ PutUint64 n ++ tail)
               - length records))%nat by (rewrite length_app; lia).
  rewrite Read_loop_frames; [ | done | done | ].
  - destruct (Read_loop_truncated
                (length (concat (map frame records) ++ PutUint64 n ++ tail)
                 - length records) n tail extra Hn Hne Hlt) as [tr ->].
    by exists tr.
  - intros Hnil. by destruct (PutUint64 n ++ tail) eqn:E.
Qed.

End Frames.

Section Writer.
Context `{Zstd}.



(** An empty payload in the last frame leaves exactly its eight prefix
    bytes, and the loop guard [len(b) > 8] ends the reading before it. *)
Lemma Read_loop_drops_empty_last (records : list (list byte))
    (last_record extra : list byte) :
  Forall (fun r => decompress (compressed r) = inl r) records ->
  Forall (fun r => Z.of_nat (length (compressed r)) < 2 ^ 63) records ->
  compressed last_record = [] ->
  Read_frames
    (Slice (concat (map frame (records ++ [last_record]))) extra)
  = (map Parsed records, Done).
Proof.
  intros Hinv Hsz Hempty. unfold Read_frames. cbn [elts].
  rewrite map_app, concat_app. cbn [map concat]. rewrite app_nil_r.
  pose proof (frames_length records) as Hlen.
  replace (S (length (concat (map frame records) ++ frame last_record)))
    with (length records
          + (S (length (concat (map frame records) ++ frame last_record))
             - length records))%nat by (rewrite length_app; lia).
  rewrite Read_loop_frames; [ | done | done | ].
  - rewrite Read_loop_short, app_nil_r; [done|].
    unfold len. cbn [elts]. rewrite frame_length, Hempty. cbn. lia.
  - intros Hnil. exfalso. revert Hnil. unfold frame.
    by destruct (compress last_record).
Qed.

End Writer.



(** What is asked of the last payload cannot be dropped.  With the
    stand-in codec, which gives every record back but writes no byte for
    an empty one, two records are written and one is read: the eight bytes
    of the second frame do not pass the loop guard [len(b) > 8]. *)
Lemma empty_last_payload_is_left_unread :
  let records := [[1; 2; 3]; []] in
  let written :=
    file_contents (@write_all stored_zstd no_files "log" records) "log" in
  Forall (fun r => @decompress stored_zstd (@compressed stored_zstd r) = inl r)
         records
  /\ @Read_frames stored_zstd (Slice written []) = ([Parsed [1; 2; 3]], Done)
  /\ @Read_frames stored_zstd (Slice written []) <> (map Parsed records, Done).
Proof.
  cbv zeta. split; [repeat constructor|].
  assert (E : @Read_frames stored_zstd
                (Slice (file_contents
                          (@write_all stored_zstd no_files "log"
                                      [[1; 2; 3]; []]) "log") [])
              = ([Parsed [1; 2; 3]], Done)) by (vm_compute; reflexivity).
  split; [exact E|]. rewrite E. discriminate.
Qed.

Section Truncated.
Context `{Zstd} `{Marshalling}.

(** [readMap] on a frame whose declared length is above the bytes that
    follow: a panic, or the decoder's error; never a map. *)
Lemma readMap_loop_truncated (fuel : nat) (n : Z) (tail extra : list byte)
    (m : gmap Z TickerMap) :
  0 <= n < 2 ^ 64 ->
  (0 < length tail)%nat ->
  Z.of_nat (length tail) < n ->
  readMap_loop (S fuel) (Slice (PutUint64 n ++ tail) extra) m
  = Some (Panic "slice bounds out of range")
  \/ exists err,
       readMap_loop (S fuel) (Slice (PutUint64 n ++ tail) extra) m
       = Some (Ok (inr err)).
Proof.
  intros Hn Hne Hlt.
  remember (readMap_loop (S fuel) (Slice (PutUint64 n ++ tail) extra) m)
    as result eqn:E.
  cbn [readMap_loop] in E.
  replace (8 <? len (Slice (PutUint64 n ++ tail) extra)) with true in E.
  2:{ symmetry. apply Z.ltb_lt. unfold len. cbn [elts].
      rewrite length_app, PutUint64_length. lia. }
  rewrite read_prefix in E by done.
  unfold sub in E.
  destruct ((0 <=? 8) && (8 <=? wrap64 (n + 8))
            && (wrap64 (n + 8) <=? cap _)) eqn:Hsub; [|by left].
  apply andb_true_iff in Hsub as [Hsub _].
  apply andb_true_iff in Hsub as [_ Hhi]. apply Z.leb_le in Hhi.
  assert (Hwrap : wrap64 (n + 8) = n + 8).
  { unfold wrap64 in *. destruct (decide (n + 8 < 2 ^ 64)) as [?|Hge].
    - apply Z.mod_small. lia.
    - exfalso. replace (n + 8) with (n + 8 - 2 ^ 64 + 1 * 2 ^ 64) in Hhi by lia.
      rewrite Z.mod_add, Z.mod_small in Hhi by lia. lia. }
  destruct (decompress _) as [packet|err]; [|right; by eexists].
  unfold from in E.
  replace ((0 <=? wrap64 (n + 8))
           && (wrap64 (n + 8) <=? len (Slice (PutUint64 n ++ tail) extra)))
    with false in E; [by left|].
  symmetry. apply andb_false_iff. right. apply Z.leb_gt.
  rewrite Hwrap. unfold len. cbn [elts].
  rewrite length_app, PutUint64_length. lia.
Qed.

(** The fuel [readMap] gives is enough: it returns or panics on every
    file. *)
Lemma readMap_loop_fuel (fuel : nat) (b : slice byte) (m : gmap Z TickerMap) :
  len b <= Z.of_nat fuel + 8 -> readMap_loop fuel b m <> None.
Proof.
  revert b m. induction fuel as [|fuel IH]; intros b m Hlen.
  - cbn [readMap_loop].
    by replace (8 <? len b) with false by (symmetry; apply Z.ltb_ge; lia).
  - cbn [readMap_loop]. destruct (8 <? len b); [|done].
    destruct (hd8 ← sub b 0 8; Uint64 hd8) as [sizeOfPacket|why]; [|done].
    destruct (sub b 8 (wrap64 (sizeOfPacket + 8))) as [body|why] eqn:Hbody;
      [|done].
    apply sub_ok_bounds in Hbody as [Hlo _].
    destruct (decompress (elts body)) as [packet|err]; [|done].
    destruct (from b (wrap64 (sizeOfPacket + 8))) as [b'|why] eqn:Hb';
      [|done].
    apply from_ok_len in Hb' as [_ Hb'].
    destruct (proto_Unmarshal packet) as [entries|err]; [|done].
    apply IH. lia.
Qed.

Lemma readMap_total (file : or_error (slice byte)) : readMap file <> None.
Proof.
  destruct file as [b|err]; [|done]. apply readMap_loop_fuel.
  unfold len. lia.
Qed.

(** One turn of the loop of [readMap] on a complete frame. *)
Lemma readMap_loop_frame (fuel : nat) (c rest extra : list byte)
    (m : gmap Z TickerMap) :
  Z.of_nat (length c) < 2 ^ 63 ->
  (0 < length c + length rest)%nat ->
  readMap_loop (S fuel)
    (Slice (PutUint64 (Z.of_nat (length c)) ++ c ++ rest) extra) m
  = match decompress c with
    | inr err => Some (Ok (inr err))
    | inl packet =>
      match proto_Unmarshal packet with
      | inr err => Some (Ok (inr err))
      | inl entries =>
        readMap_loop fuel (Slice rest extra)
          (fold_left (fun acc ts => <[tm_Token ts := ts]> acc) entries m)
      end
    end.
Proof.
  intros Hc Hne. cbn [readMap_loop].
  replace (8 <? len (Slice (PutUint64 (Z.of_nat (length c)) ++ c ++ rest)
                           extra)) with true.
  2:{ symmetry. apply Z.ltb_lt. unfold len. cbn [elts].
      rewrite !length_app, PutUint64_length. lia. }
  rewrite read_prefix by lia.
  unfold wrap64. rewrite Z.mod_small by lia.
  rewrite (sub_app (PutUint64 (Z.of_nat (length c))) c rest extra)
    by (rewrite ?PutUint64_length; lia).
  cbn [elts].
  rewrite (app_assoc (PutUint64 _) c rest).
  rewrite (from_app (PutUint64 (Z.of_nat (length c)) ++ c) rest extra)
    by (rewrite length_app, PutUint64_length; lia).
  reflexivity.
Qed.

(** C2, at the failing input.  On [truncated_log] (a complete frame, then a
    frame that declares five bytes and has two), whatever the codec, the
    unmarshaller and the spare capacity of the slice: the frame loop of
    [Read] ends in a slice-bounds panic, and [readMap] gives a panic or an
    error and never a map.  Neither stops as at a benign end of stream. *)
Theorem readers_fail_on_truncated_final_frame (extra : list byte) :
  snd (Read_frames (Slice truncated_log extra))
  = Crashed "slice bounds out of range"
  /\ forall m, readMap (inl (Slice truncated_log extra)) <> Some (Ok (inl m)).
Proof.
  change truncated_log
    with (PutUint64 (Z.of_nat (length [40; 1; 2; 3])) ++ [40; 1; 2; 3]
          ++ (PutUint64 5 ++ [40; 9])).
  split.
  - unfold Read_frames. cbn [elts length app PutUint64].
    cbn [length]. 
    change (Read_loop 23 ?b) with (Read_loop (S 22) b).
    change (Slice _ extra)
      with (Slice (PutUint64 (Z.of_nat (length [40; 1; 2; 3]))
                   ++ [40; 1; 2; 3] ++ (PutUint64 5 ++ [40; 9])) extra).
    rewrite Read_loop_frame by (cbn; lia).
    destruct (Read_loop_truncated 21 5 [40; 9] extra) as [tr Htr];
      [lia|cbn; lia|cbn; lia|].
    rewrite Htr. by destruct (decompress [40; 1; 2; 3]).
  - intros m. unfold readMap.
    change (readMap_loop (S (length ?l)) ?b ∅)
      with (readMap_loop (S 22) b ∅).
    rewrite readMap_loop_frame by (cbn; lia).
    destruct (decompress [40; 1; 2; 3]) as [packet|err]; [|done].
    destruct (proto_Unmarshal packet) as [entries|err]; [|done].
    set (m0 := fold_left (fun acc ts => <[tm_Token ts := ts]> acc) entries ∅).
    destruct (readMap_loop_truncated 21 5 [40; 9] extra m0)
      as [E|[err E]]; [lia|cbn; lia|cbn; lia| |]; by rewrite E.
Qed.

End Truncated.

(** ** The binary tick handler *)

Lemma header_ticker_depth (values : list Z) :
  Depth_ (fst (header_ticker values)) = no_depth.
Proof.
  unfold header_ticker.
  destruct (length values) as [|n]; [reflexivity|].
  do 16 (destruct n as [|n]; [reflexivity|]). reflexivity.
Qed.

Lemma set_LotSize_depth (t : Ticker) (lotSize : Z) :
  Depth_ (set_LotSize t lotSize) = Depth_ t.
Proof. reflexivity. Qed.

Lemma enrich_ok (m : gmap Z TickerMap) (t t' : Ticker) :
  enrich m t = Ok t' ->
  exists tokenData,
    m !! Token t = Some tokenData /\ t' = set_LotSize t (tm_LotSize tokenData).
Proof.
  unfold enrich. destruct (m !! Token t) as [tokenData|]; [|done].
  intros [= <-]. by exists tokenData.
Qed.

(** For a token that is not a key of the map the lot-size step panics. *)
Lemma enrich_unknown (m : gmap Z TickerMap) (t : Ticker) :
  m !! Token t = None -> enrich m t = Panic "nil pointer dereference".
Proof. unfold enrich. by intros ->. Qed.

(** For a token of the map, the ticker gets its lot size. *)
Lemma enrich_known (m : gmap Z TickerMap) (t : Ticker) (tokenData : TickerMap) :
  m !! Token t = Some tokenData ->
  enrich m t = Ok (set_LotSize t (tm_LotSize tokenData)).
Proof. unfold enrich. by intros ->. Qed.

Section Handler.
Context `{PacketParser} `{Marshalling}.

(** A packet of at most 64 bytes decodes to the header ticker. *)
Lemma decode_packet_no_depth (packet : slice byte) :
  len packet <= 64 ->
  decode_packet packet
  = (snd (header_ticker (ParseBinary (elts packet) (Z.min 64 (len packet)))),
     Ok (fst (header_ticker
                (ParseBinary (elts packet) (Z.min 64 (len packet)))))).
Proof.
  intros Hlen. unfold decode_packet.
  destruct (header_ticker _) as [ticker logs].
  by replace (64 <? len packet) with false by (symmetry; apply Z.ltb_ge; lia).
Qed.

(** What decoding logs is what the header switch logged: at most the line
    for an unknown length, and no record. *)
Lemma header_ticker_logs (values : list Z) (t : Ticker) :
  Produced t ∉ snd (header_ticker values).
Proof.
  unfold header_ticker.
  destruct (length values) as [|n]; cbn [snd];
    [by intros [=]%list_elem_of_singleton|].
  do 16 (destruct n as [|n]; cbn [snd];
         [first [apply not_elem_of_nil
                | by intros [=]%list_elem_of_singleton]|]).
  by intros [=]%list_elem_of_singleton.
Qed.

Lemma decode_packet_logs (packet : slice byte) :
  fst (decode_packet packet)
  = snd (header_ticker (ParseBinary (elts packet) (Z.min 64 (len packet)))).
Proof.
  unfold decode_packet. destruct (header_ticker _) as [ticker logs].
  destruct (64 <? len packet); [|done]. by destruct (from packet 64).
Qed.

(** With no instrument loaded, a turn of the packet loop never gets past
    the lot-size step: it panics, there or before, and produces nothing. *)
Lemma packet_step_no_instruments (message : slice byte) :
  exists evs why,
    packet_step ∅ message = (evs, Panic why)
    /\ forall t, Produced t ∉ evs.
Proof.
  unfold packet_step.
  destruct (hd2 ← sub message 0 2; packetSize ← Uint16 hd2;
            packet ← sub message 2 (wrap16 (packetSize + 2));
            mret (packetSize, packet)) as [[packetSize packet]|why].
  2:{ exists [], why. split; [done|]. intros t. apply not_elem_of_nil. }
  pose proof (decode_packet_logs packet) as Hlogs.
  destruct (decode_packet packet) as [logs decoded]. cbn [fst] in Hlogs.
  assert (Hnone : forall t, Produced t ∉ logs).
  { intros t. rewrite Hlogs. apply header_ticker_logs. }
  destruct decoded as [ticker|why]; [|by exists logs, why].
  destruct (if _ <? _ then _ else _) as [message'|why];
    [|by exists logs, why].
  rewrite enrich_unknown by apply lookup_empty. by eexists _, _.
Qed.

End Handler.

Section Decoding.
Context `{PacketParser} `{Marshalling}.

(** A decoded ticker is the header ticker with a depth put in. *)
Lemma decode_packet_ok (packet : slice byte) (t : Ticker) :
  snd (decode_packet packet) = Ok t ->
  exists d,
    t = set_Depth
          (fst (header_ticker
                  (ParseBinary (elts packet) (Z.min 64 (len packet))))) d.
Proof.
  unfold decode_packet.
  pose proof (header_ticker_depth
                (ParseBinary (elts packet) (Z.min 64 (len packet)))) as Hd.
  destruct (header_ticker _) as [ticker logs]. cbn [fst] in *.
  destruct (64 <? len packet).
  - destruct (from packet 64) as [packet'|why]; [|done]. cbn [snd].
    destruct (depth_loop _ _ _) as [d|why]; [|done].
    intros [= <-]. by exists d.
  - cbn [snd]. intros [= <-]. exists no_depth. rewrite <- Hd.
    by destruct ticker.
Qed.

(** Cutting the first packet out of a message body: the size read from
    the two header bytes, the packet, and the message left for the next
    turn. *)
Lemma first_packet_cut (hdr payload rest spare : list byte) :
  length hdr = 2%nat ->
  be_value hdr = Z.of_nat (length payload) ->
  Z.of_nat (length payload) + 2 < 2 ^ 16 ->
  (hd2 ← sub (Slice (hdr ++ payload ++ rest) spare) 0 2;
   packetSize ← Uint16 hd2;
   packet ← sub (Slice (hdr ++ payload ++ rest) spare) 2
              (wrap16 (packetSize + 2));
   mret (packetSize, packet))
  = Ok (Z.of_nat (length payload), Slice payload (rest ++ spare))
  /\ (if wrap16 (Z.of_nat (length payload) + 2)
         <? len (Slice (hdr ++ payload ++ rest) spare)
      then from (Slice (hdr ++ payload ++ rest) spare)
                (wrap16 (Z.of_nat (length payload) + 2))
      else Ok (Slice (hdr ++ payload ++ rest) spare))
     = Ok (rest_of_message hdr payload rest spare).
Proof.
  intros Hhdr Hsize Hsmall.
  assert (Hwrap : wrap16 (Z.of_nat (length payload) + 2)
                  = Z.of_nat (length payload) + 2)
    by (unfold wrap16; rewrite Z.mod_small; lia).
  split.
  - pose proof (sub_app [] hdr (payload ++ rest) spare 0 2 eq_refl) as E.
    rewrite app_nil_l in E. rewrite E by (cbn [length]; lia). clear E.
    unfold mbind, res_bind, mret, res_ret.
    unfold Uint16, len. cbn [elts]. rewrite Hhdr.
    change (2 <=? Z.of_nat 2) with true. cbv iota.
    rewrite take_ge by lia. rewrite Hsize, Hwrap.
    by rewrite (sub_app hdr payload rest spare) by lia.
  - rewrite Hwrap. unfold len. cbn [elts]. rewrite !length_app.
    destruct rest as [|b rest].
    + replace (Z.of_nat (length payload) + 2
               <? Z.of_nat (length hdr + (length payload + length [])))
        with false by (symmetry; apply Z.ltb_ge; cbn [length]; lia).
      done.
    + replace (Z.of_nat (length payload) + 2
               <? Z.of_nat (length hdr
                            + (length payload + length (b :: rest))))
        with true by (symmetry; apply Z.ltb_lt; cbn [length]; lia).
      cbn [rest_of_message]. rewrite app_assoc.
      apply from_app. rewrite length_app. lia.
Qed.

(** A turn of the packet loop on a message body that starts with a whole
    packet: what is logged is what decoding logs; a record is produced
    when the packet decodes and its token is in the map, and then the next
    turn gets the rest of the message; otherwise the turn panics. *)
Lemma packet_step_first_packet (m : gmap Z TickerMap)
    (hdr payload rest spare : list byte) :
  length hdr = 2%nat ->
  be_value hdr = Z.of_nat (length payload) ->
  Z.of_nat (length payload) + 2 < 2 ^ 16 ->
  packet_step m (Slice (hdr ++ payload ++ rest) spare)
  = match snd (decode_packet (Slice payload (rest ++ spare))) with
    | Panic why =>
      (fst (decode_packet (Slice payload (rest ++ spare))), Panic why)
    | Ok ticker =>
      match enrich m ticker with
      | Panic why =>
        (fst (decode_packet (Slice payload (rest ++ spare))), Panic why)
      | Ok ticker' =>
        (fst (decode_packet (Slice payload (rest ++ spare)))
         ++ Produced ticker' :: marshal_log ticker',
         Ok (rest_of_message hdr payload rest spare))
      end
    end.
Proof.
  intros Hhdr Hsize Hsmall.
  destruct (first_packet_cut hdr payload rest spare Hhdr Hsize Hsmall)
    as [Hcut Hnext].
  unfold packet_step. rewrite Hcut, Hnext.
  destruct (decode_packet (Slice payload (rest ++ spare))) as [logs decoded].
  cbn [fst snd]. destruct decoded as [ticker|why]; [|done].
  by destruct (enrich m ticker).
Qed.

(** The same for the packet loop: after the record of the first packet
    come the turns for the rest of the message. *)
Lemma packet_loop_first_packet (m : gmap Z TickerMap)
    (hdr payload rest spare : list byte) (ticker : Ticker)
    (tokenData : TickerMap) (n : nat) :
  length hdr = 2%nat ->
  be_value hdr = Z.of_nat (length payload) ->
  Z.of_nat (length payload) + 2 < 2 ^ 16 ->
  snd (decode_packet (Slice payload (rest ++ spare))) = Ok ticker ->
  m !! Token ticker = Some tokenData ->
  packet_loop m (S n) (Slice (hdr ++ payload ++ rest) spare)
  = ((fst (decode_packet (Slice payload (rest ++ spare)))
      ++ Produced (set_LotSize ticker (tm_LotSize tokenData))
      :: marshal_log (set_LotSize ticker (tm_LotSize tokenData)))
     ++ fst (packet_loop m n (rest_of_message hdr payload rest spare)),
     snd (packet_loop m n (rest_of_message hdr payload rest spare))).
Proof.
  intros Hhdr Hsize Hsmall Hdec Htok. cbn [packet_loop].
  rewrite packet_step_first_packet by done.
  rewrite Hdec, (enrich_known m ticker tokenData Htok).
  by destruct (packet_loop m n (rest_of_message hdr payload rest spare)).
Qed.

End Decoding.



(** C1, at the failing input.  With no instrument loaded every turn of the
    packet loop panics and produces no record; and with the map holding
    token 5 only, the message of one packet for token 9 ends the handler in
    a nil-pointer panic after the append to the log, with no record
    produced. *)
Theorem unknown_token_panics `{PacketParser} `{Marshalling} :
  (forall message, exists evs why,
      packet_step ∅ message = (evs, Panic why)
      /\ forall t, Produced t ∉ evs)
  /\ snd (@handle_message stored_zstd words_parser bytes_marshalling
            one_instrument 600 "20240102" no_files (exact message_token_9))
     = ([Appended "./binary/market_data_equity_mcx_20240102.bin.zstd"],
        Crashed "nil pointer dereference").
Proof.
  split; [apply packet_step_no_instruments|].
  vm_compute. reflexivity.
Qed.




(** C9.  A packet whose payload is exactly 64 bytes long decodes, and to a
    ticker whose Depth.Buy and Depth.Sell are both empty; the lot-size step
    leaves them empty. *)
Theorem sixty_four_bytes_no_depth `{PacketParser} (packet : slice byte) :
  len packet = 64 ->
  exists t,
    snd (decode_packet packet) = Ok t
    /\ Buy (Depth_ t) = [] /\ Sell (Depth_ t) = []
    /\ forall m t', enrich m t = Ok t' ->
         Buy (Depth_ t') = [] /\ Sell (Depth_ t') = [].
Proof.
  intros Hlen. rewrite decode_packet_no_depth by lia. cbn [snd].
  eexists. split; [reflexivity|].
  rewrite header_ticker_depth. split; [done|]. split; [done|].
  intros m t' [tokenData [_ ->]]%enrich_ok.
  by rewrite set_LotSize_depth, header_ticker_depth.
Qed.

Lemma sixty_four_bytes_no_depth_witness :
  exists t,
    snd (@decode_packet words_parser (exact full_packet)) = Ok t
    /\ Buy (Depth_ t) = [] /\ Sell (Depth_ t) = []
    /\ forall m t', enrich m t = Ok t' ->
         Buy (Depth_ t') = [] /\ Sell (Depth_ t') = [].
Proof.
  apply (@sixty_four_bytes_no_depth words_parser (exact full_packet)).
  reflexivity.
Defined.

(** The depth loop on whole groups: the buy side takes groups until it has
    [lobDepth] orders, the sell side the rest, each in the order read. *)
Lemma depth_loop_groups (lobDepth : Z) (groups : list group) (d : Depth) :
  depth_loop lobDepth (flat_groups groups) d
  = Ok (mkDepth
          (Buy d ++ map order_of_group
                        (take (Z.to_nat (lobDepth - Z.of_nat (length (Buy d))))
                              groups))
          (Sell d ++ map order_of_group
                         (drop (Z.to_nat (lobDepth - Z.of_nat (length (Buy d))))
                               groups))).
Proof.
  revert d. induction groups as [|[[qty price] orders] gs IH]; intros d.
  - cbn. rewrite take_nil, drop_nil. cbn. rewrite !app_nil_r. by destruct d.
  - cbn [flat_groups flat_map app depth_loop].
    fold (flat_groups gs).
    destruct (Z.of_nat (length (Buy d)) <? lobDepth) eqn:Hlt.
    + apply Z.ltb_lt in Hlt. rewrite IH. cbn [Buy Sell].
      rewrite length_app. cbn [length].
      replace (Z.to_nat (lobDepth - Z.of_nat (length (Buy d))))
        with (S (Z.to_nat (lobDepth
                           - Z.of_nat (length (Buy d) + 1)))) by lia.
      cbn [take drop map order_of_group]. by rewrite <- app_assoc.
    + apply Z.ltb_ge in Hlt. rewrite IH. cbn [Buy Sell].
      replace (Z.to_nat (lobDepth - Z.of_nat (length (Buy d)))) with O by lia.
      cbn [take drop map order_of_group]. by rewrite <- app_assoc.
Qed.

Lemma flat_groups_length (groups : list group) :
  length (flat_groups groups) = (3 * length groups)%nat.
Proof.
  induction groups as [|[[qty price] orders] gs IH]; [done|].
  cbn [flat_groups flat_map app length]. fold (flat_groups gs). lia.
Qed.

(** C8.  For a packet longer than 64 bytes whose bytes past the header
    parse to whole groups (quantity, price, orderCount), the decoded ticker
    has, as Depth.Buy, the first [totalGroups / 2] groups and, as
    Depth.Sell, all the remaining groups, each side in payload order, an
    order taking its price, quantity and order count from its group. *)
Theorem depth_split_in_halves `{PacketParser} (packet : slice byte)
    (groups : list group) :
  64 < len packet ->
  ParseMarketDepth (drop 64 (elts packet)) = flat_groups groups ->
  exists t,
    snd (decode_packet packet) = Ok t
    /\ Buy (Depth_ t)
       = map order_of_group (take (length groups / 2) groups)
    /\ Sell (Depth_ t)
       = map order_of_group (drop (length groups / 2) groups).
Proof.
  intros Hlen Hparse. unfold decode_packet.
  pose proof (header_ticker_depth
                (ParseBinary (elts packet) (Z.min 64 (len packet)))) as Hd.
  destruct (header_ticker _) as [ticker logs]. cbn [fst] in Hd.
  replace (64 <? len packet) with true by (symmetry; apply Z.ltb_lt; lia).
  unfold from.
  replace ((0 <=? 64) && (64 <=? len packet)) with true
    by (symmetry; rewrite andb_true_iff, !Z.leb_le; lia).
  cbn [elts snd]. change (Z.to_nat 64) with 64%nat.
  rewrite Hparse, depth_loop_groups, Hd. cbn [no_depth Buy Sell length app].
  unfold mbind, res_bind, mret, res_ret.
  eexists. split; [reflexivity|]. cbn [set_Depth Depth_ Buy Sell].
  rewrite flat_groups_length.
  replace (Z.to_nat (Z.of_nat (3 * length groups) / 6 - Z.of_nat 0))
    with (length groups / 2)%nat; [done|].
  rewrite Z.sub_0_r.
  replace (Z.of_nat (3 * length groups)) with (3 * Z.of_nat (length groups))
    by lia.
  change 6 with (3 * 2). rewrite Z.div_mul_cancel_l by lia.
  change 2 with (Z.of_nat 2). by rewrite <- Nat2Z.inj_div, Nat2Z.id.
Qed.

Lemma depth_split_in_halves_witness :
  exists t,
    snd (@decode_packet words_parser (exact depth_packet)) = Ok t
    /\ Buy (Depth_ t) = [mkOrder 100 10 1; mkOrder 99 20 2]
    /\ Sell (Depth_ t) = [mkOrder 101 30 3; mkOrder 102 40 4; mkOrder 103 50 5].
Proof.
  apply (@depth_split_in_halves words_parser (exact depth_packet)
                                sample_ladder).
  - vm_compute. reflexivity.
  - vm_compute. reflexivity.
Defined.

(** The header switch on a field count it has no case for. *)
Lemma header_ticker_unrecognized (values : list Z) :
  length values ∉ recognized_counts ->
  base_fields (fst (header_ticker values)) values
  /\ snd (header_ticker values)
     = [LoggedUnknownLength (Z.of_nat (length values)) values].
Proof.
  intros Hcount. unfold header_ticker, base_fields.
  assert (Hne : forall k, k ∈ recognized_counts -> length values <> k)
    by (intros k Hk E; by rewrite E in Hcount).
  pose proof (Hne 2%nat ltac:(set_solver)).
  pose proof (Hne 7%nat ltac:(set_solver)).
  pose proof (Hne 8%nat ltac:(set_solver)).
  pose proof (Hne 11%nat ltac:(set_solver)).
  pose proof (Hne 16%nat ltac:(set_solver)).
  destruct (length values) as [|n]; [by cbn|].
  do 16 (destruct n as [|n]; [first [done | by cbn]|]).
  by cbn.
Qed.

(** C6 (as amended).  A turn of the packet loop on a packet whose header
    parses to a number of values that is none of 2, 7, 8, 11, 16.  The
    count is logged as unknown, first of all and whatever comes after.
    The packet is not skipped: when its depth decodes and its token is in
    the instrument map, the turn produces the record (Token and LastPrice
    from the first two values when there are two, every other header field
    zero, the lot size of the token), and the packet loop goes on with the
    bytes that follow the packet in the message. *)
Theorem unrecognized_count_logged_not_skipped `{PacketParser} `{Marshalling}
    (m : gmap Z TickerMap) (hdr payload rest spare : list byte)
    (values : list Z) :
  length hdr = 2%nat ->
  be_value hdr = Z.of_nat (length payload) ->
  Z.of_nat (length payload) + 2 < 2 ^ 16 ->
  ParseBinary payload (Z.min 64 (Z.of_nat (length payload))) = values ->
  length values ∉ recognized_counts ->
  (exists evs r,
     packet_step m (Slice (hdr ++ payload ++ rest) spare)
     = (LoggedUnknownLength (Z.of_nat (length values)) values :: evs, r))
  /\ forall ticker tokenData,
       snd (decode_packet (Slice payload (rest ++ spare))) = Ok ticker ->
       m !! Token ticker = Some tokenData ->
       base_fields ticker values
       /\ packet_step m (Slice (hdr ++ payload ++ rest) spare)
          = (LoggedUnknownLength (Z.of_nat (length values)) values
             :: Produced (set_LotSize ticker (tm_LotSize tokenData))
             :: marshal_log (set_LotSize ticker (tm_LotSize tokenData)),
             Ok (rest_of_message hdr payload rest spare))
       /\ forall n,
            packet_loop m (S n) (Slice (hdr ++ payload ++ rest) spare)
            = (LoggedUnknownLength (Z.of_nat (length values)) values
               :: Produced (set_LotSize ticker (tm_LotSize tokenData))
               :: marshal_log (set_LotSize ticker (tm_LotSize tokenData))
               ++ fst (packet_loop m n (rest_of_message hdr payload rest spare)),
               snd (packet_loop m n (rest_of_message hdr payload rest spare))).
Proof.
  intros Hhdr Hsize Hsmall Hparse Hcount.
  destruct (header_ticker_unrecognized values Hcount) as [Hbase Hlog].
  pose proof (decode_packet_logs (Slice payload (rest ++ spare))) as Hlogs.
  unfold len in Hlogs. cbn [elts] in Hlogs.
  rewrite Hparse, Hlog in Hlogs.
  split.
  - rewrite packet_step_first_packet by done. rewrite Hlogs.
    destruct (snd (decode_packet (Slice payload (rest ++ spare))))
      as [ticker|why]; [|by eexists _, _].
    destruct (enrich m ticker) as [ticker'|why]; by eexists _, _.
  - intros ticker tokenData Hdec Htok. split; [|split].
    + destruct (decode_packet_ok _ ticker Hdec) as [d ->].
      unfold len. cbn [elts]. rewrite Hparse. exact Hbase.
    + rewrite packet_step_first_packet by done.
      by rewrite Hdec, Hlogs, (enrich_known m ticker tokenData Htok).
    + intros n.
      rewrite (packet_loop_first_packet m hdr payload rest spare ticker
                 tokenData n) by done.
      by rewrite Hlogs.
Qed.

Lemma unrecognized_count_logged_not_skipped_witness :
  @packet_step words_parser bytes_marshalling one_instrument
    (exact (drop 2 message_three_fields))
  = ([LoggedUnknownLength 3 [5; 100; 7];
      Produced (mkTicker 5 100 0 0 0 0 0 0 0 0 0 0 0 0 0 0 0 75 no_depth)],
     Ok (exact [0; 8; 0; 0; 0; 5; 0; 0; 0; 101]))
  /\ @packet_loop words_parser bytes_marshalling one_instrument 2
       (exact (drop 2 message_three_fields))
     = ([LoggedUnknownLength 3 [5; 100; 7];
         Produced (mkTicker 5 100 0 0 0 0 0 0 0 0 0 0 0 0 0 0 0 75 no_depth);
         Produced (mkTicker 5 101 0 0 0 0 0 0 0 0 0 0 0 0 0 0 0 75 no_depth)],
        Done).
Proof.
  pose proof (@unrecognized_count_logged_not_skipped words_parser
                bytes_marshalling one_instrument [0; 12]
                [0; 0; 0; 5; 0; 0; 0; 100; 0; 0; 0; 7]
                [0; 8; 0; 0; 0; 5; 0; 0; 0; 101] [] [5; 100; 7]
                eq_refl eq_refl ltac:(by vm_compute) eq_refl
                ltac:(compute_done)) as [_ Hrecord].
  destruct (Hrecord (mkTicker 5 100 0 0 0 0 0 0 0 0 0 0 0 0 0 0 0 0 no_depth)
              (mkTickerMap 5 "NIFTY" "NSE" "NIFTY" "" 0%float 0%float 75 "EQ"
                           "NSE")
              eq_refl eq_refl) as [_ [Hstep Hloop]].
  split; [exact Hstep|]. exact (Hloop 1%nat).
Defined.

(** C6, counterexample.  A message of two packets, the first with three
    fields: the count is logged as unknown, and a record is produced from
    that packet all the same (token 5, last price 100, lot size 75), before
    the record of the second packet. *)
Lemma unrecognized_count_still_produces_record :
  snd (@handle_message stored_zstd words_parser bytes_marshalling
         one_instrument 600 "20240102" no_files (exact message_three_fields))
  = ([Appended "./binary/market_data_equity_mcx_20240102.bin.zstd";
      LoggedUnknownLength 3 [5; 100; 7];
      Produced (mkTicker 5 100 0 0 0 0 0 0 0 0 0 0 0 0 0 0 0 75 no_depth);
      Produced (mkTicker 5 101 0 0 0 0 0 0 0 0 0 0 0 0 0 0 0 75 no_depth)],
     Done).
Proof. vm_compute. reflexivity. Qed.

(** ** The subscription rotation *)

(** With a positive batch size the walk through the batches ends, within
    the fuel [rotation_cycle] gives it, and no slice expression fails. *)
Lemma rotation_loop_done (allTokens : slice Z) (mcxTokens : gset Z)
    (n nowTimeValue : Z) (fuel : nat) (start : Z) (isSubscribed : bool) :
  0 < n -> 0 <= start ->
  len allTokens - start <= Z.of_nat fuel ->
  snd (rotation_loop fuel allTokens mcxTokens n nowTimeValue start isSubscribed)
  = Done.
Proof.
  intros Hn. revert start isSubscribed.
  induction fuel as [|fuel IH]; intros start isSubscribed Hstart Hfuel.
  - cbn [rotation_loop].
    by replace (start <? len allTokens) with false
      by (symmetry; apply Z.ltb_ge; lia).
  - cbn [rotation_loop].
    destruct (start <? len allTokens) eqn:Hlt; [|done].
    apply Z.ltb_lt in Hlt.
    assert (Hsub : 0 <= start - n ->
              exists prev, sub allTokens (start - n) start = Ok prev).
    { intros Hprev. unfold sub.
      replace ((0 <=? start - n) && (start - n <=? start)
               && (start <=? cap allTokens)) with true; [by eexists|].
      symmetry. rewrite !andb_true_iff, !Z.leb_le.
      unfold cap, len in *. lia. }
    specialize (IH (start + n)).
    destruct (0 <=? start - n) eqn:Hprev.
    + apply Z.leb_le in Hprev. destruct (Hsub Hprev) as [prev Eprev].
      destruct isSubscribed.
      * rewrite Eprev. unfold mbind, res_bind, mret, res_ret.
        destruct (0 <? Z.of_nat (length _));
          [specialize (IH true)|specialize (IH false)];
          destruct (rotation_loop fuel _ _ _ _ _ _) as [[evs3 b3] o];
          cbn [snd] in *; apply IH; lia.
      * destruct (0 <? Z.of_nat (length _));
          [specialize (IH true)|specialize (IH false)];
          destruct (rotation_loop fuel _ _ _ _ _ _) as [[evs3 b3] o];
          cbn [snd] in *; apply IH; lia.
    + destruct (0 <? Z.of_nat (length _));
        [specialize (IH true)|specialize (IH false)];
        destruct (rotation_loop fuel _ _ _ _ _ _) as [[evs3 b3] o];
        cbn [snd] in *; apply IH; lia.
Qed.

(** Inside a pass, at a batch that is not the first and with the batch
    before it subscribed, the first message unsubscribes that batch,
    [allTokens[start-n:start]]: it goes out before the batch at [start] is
    subscribed. *)
Lemma rotation_loop_unsubscribes_previous (allTokens : slice Z)
    (mcxTokens : gset Z) (n nowTimeValue : Z) (fuel : nat) (start : Z) :
  0 < n -> n <= start -> start < len allTokens ->
  exists prev rest,
    sub allTokens (start - n) start = Ok prev
    /\ fst (fst (rotation_loop (S fuel) allTokens mcxTokens n nowTimeValue
                               start true))
       = Unsubscribe (elts prev) :: rest.
Proof.
  intros Hn Hstart Hlt. cbn [rotation_loop].
  replace (start <? len allTokens) with true
    by (symmetry; apply Z.ltb_lt; lia).
  replace (0 <=? start - n) with true by (symmetry; apply Z.leb_le; lia).
  assert (Hsub : exists prev, sub allTokens (start - n) start = Ok prev).
  { unfold sub.
    replace ((0 <=? start - n) && (start - n <=? start)
             && (start <=? cap allTokens)) with true; [by eexists|].
    symmetry. rewrite !andb_true_iff, !Z.leb_le. unfold cap, len in *. lia. }
  destruct Hsub as [prev Hprev]. rewrite Hprev.
  unfold mbind, res_bind, mret, res_ret.
  destruct (0 <? Z.of_nat (length _));
    destruct (rotation_loop fuel _ _ _ _ _ _) as [[evs3 b3] o];
    by eexists _, _.
Qed.

(** A cycle never begins by unsubscribing: at [start = 0] there is no
    previous chunk, also when the cycle before left its last batch
    subscribed. *)
Lemma rotation_cycle_first_message (allTokens : slice Z) (mcxTokens : gset Z)
    (n nowTimeValue : Z) (isSubscribed : bool) :
  0 < n ->
  match fst (fst (rotation_cycle allTokens mcxTokens n nowTimeValue
                                 isSubscribed)) with
  | Unsubscribe _ :: _ => False
  | _ => True
  end.
Proof.
  intros Hn. unfold rotation_cycle.
  destruct (length (elts allTokens)) as [|fuel] eqn:Hl.
  - cbn [rotation_loop]. by destruct (0 <? len allTokens).
  - cbn [rotation_loop].
    destruct (0 <? len allTokens); [|done].
    replace (0 <=? 0 - n) with false by (symmetry; apply Z.leb_gt; lia).
    destruct (0 <? Z.of_nat (length _));
      by destruct (rotation_loop fuel _ _ _ _ _ _) as [[evs3 b3] o].
Qed.

(** C3, at the failing input.  Five tokens in batches of two, two cycles:
    every batch but the last of a cycle is unsubscribed before the next is
    subscribed; at the wrap-around the first batch is subscribed again with
    no unsubscribe of the last, so that three tokens are in flight (5, 1,
    2), more than a batch, and token 5 stays subscribed to the end. *)
Theorem wrap_around_keeps_last_batch :
  two_cycles
  = ([ SubscribeFull [1; 2]; Slept;
       Unsubscribe [1; 2]; SubscribeFull [3; 4]; Slept;
       Unsubscribe [3; 4]; SubscribeFull [5]; Slept;
       SubscribeFull [1; 2]; Slept;
       Unsubscribe [1; 2]; SubscribeFull [3; 4]; Slept;
       Unsubscribe [3; 4]; SubscribeFull [5]; Slept ],
     true, Done)
  /\ in_flight (take 9 (fst (fst two_cycles))) = {[ 5; 1; 2 ]}
  /\ size (in_flight (take 9 (fst (fst two_cycles)))) = 3%nat
  /\ 5 ∈ in_flight (take 14 (fst (fst two_cycles))).
Proof.
  assert (E : two_cycles
    = ([ SubscribeFull [1; 2]; Slept;
         Unsubscribe [1; 2]; SubscribeFull [3; 4]; Slept;
         Unsubscribe [3; 4]; SubscribeFull [5]; Slept;
         SubscribeFull [1; 2]; Slept;
         Unsubscribe [1; 2]; SubscribeFull [3; 4]; Slept;
         Unsubscribe [3; 4]; SubscribeFull [5]; Slept ],
       true, Done)) by (vm_compute; reflexivity).
  rewrite E. cbn [fst take]. repeat split; by vm_compute.
Qed.

(** ** The configuration step *)

(** C4 (as amended).  The rotation interval and the batch size are parsed
    from TA_FEED_TIMEOUT and TA_FEED_INSTRUMENT_COUNT; a parse error is
    logged, one line for each, and nothing else is checked: whatever the two
    strings are, the engine proceeds with the two values the parser gave,
    never with a fatal configuration error. *)
Theorem configuration_is_parsed_not_validated `{Strconv}
    (Getenv : string -> string) :
  Serve_config Getenv
  = EngineProceeds
      (fst (ParseFloat (Getenv "TA_FEED_TIMEOUT")))
      (fst (ParseFloat (Getenv "TA_FEED_INSTRUMENT_COUNT")))
      (log_error (snd (ParseFloat (Getenv "TA_FEED_TIMEOUT")))
       ++ log_error (snd (ParseFloat (Getenv "TA_FEED_INSTRUMENT_COUNT"))))
  /\ forall why, Serve_config Getenv <> FatalConfigurationError why.
Proof.
  unfold Serve_config.
  destruct (ParseFloat (Getenv "TA_FEED_TIMEOUT")) as [v1 e1].
  destruct (ParseFloat (Getenv "TA_FEED_INSTRUMENT_COUNT")) as [v2 e2].
  split; [reflexivity|discriminate].
Qed.

(** C4, counterexample.  With neither variable set both settings are
    invalid (they do not parse), and with a batch size of -5 that setting is
    invalid (it is not positive); in both cases the engine proceeds, in
    the second without a line for the batch size in the log. *)
Lemma invalid_configuration_proceeds :
  @spec_valid_setting table_strconv (unset_env "TA_FEED_TIMEOUT") = false
  /\ @spec_valid_setting table_strconv (unset_env "TA_FEED_INSTRUMENT_COUNT")
     = false
  /\ @Serve_config table_strconv unset_env
     = EngineProceeds 0 0
         [Logged "strconv.ParseFloat: parsing: invalid syntax";
          Logged "strconv.ParseFloat: parsing: invalid syntax"]
  /\ @spec_valid_setting table_strconv "-5" = false
  /\ @Serve_config table_strconv
       (fun name => if decide (name = "TA_FEED_TIMEOUT"%string)
                    then "2"%string else "-5"%string)
     = EngineProceeds 2 (-5) [].
Proof. repeat split; vm_compute; reflexivity. Qed.

(** ** The wait for a quote *)

Lemma is_zero_not_positive (p : float) :
  is_zero p -> PrimFloat.ltb 0 p = false.
Proof. by intros [-> | ->]. Qed.

Lemma has_price_zero_or_absent (cache : gmap string kite.KiteTicker)
    (key : string) :
  zero_or_absent cache key -> kite.has_price cache key = false.
Proof.
  unfold zero_or_absent, kite.has_price.
  destruct (cache !! key) as [ticker|]; [|done].
  apply is_zero_not_positive.
Qed.

(** The wait loop over readings that never show a positive price: it looks
    at the map once for each reading inside the limit and times out at the
    first reading at or past it. *)
Lemma wait_loop_times_out (symbolKey tradingSymbol : string)
    (before after : list (Z * gmap string kite.KiteTicker))
    (since : Z) (cache : gmap string kite.KiteTicker) (checks : nat) :
  Forall (fun poll => fst poll < kite.maxWaitTime
                      /\ zero_or_absent (snd poll) symbolKey
                      /\ zero_or_absent (snd poll) tradingSymbol) before ->
  kite.maxWaitTime <= since ->
  kite.wait_loop symbolKey tradingSymbol (before ++ (since, cache) :: after)
                 checks
  = Some (Some (kite.TimeoutWaiting symbolKey), (checks + length before)%nat).
Proof.
  intros Hbefore Hsince. revert checks.
  induction Hbefore as [|[s c] before [Hs [Hk Ht]] _ IH]; intros checks.
  - cbn [app kite.wait_loop length].
    replace (since <? kite.maxWaitTime) with false
      by (symmetry; apply Z.ltb_ge; lia).
    by rewrite Nat.add_0_r.
  - cbn [app kite.wait_loop length fst snd] in *.
    replace (s <? kite.maxWaitTime) with true
      by (symmetry; apply Z.ltb_lt; lia).
    rewrite !has_price_zero_or_absent by done.
    rewrite IH. do 2 f_equal. lia.
Qed.

(** C10.  Once the symbol is found among the instruments and the
    subscriptions are sent, if at every reading inside the five seconds the
    map has, under "exchange:symbol" and under the bare symbol, no entry or
    an entry whose LastPrice is zero, then the wait looks at the map at
    each of these readings and returns the timeout error at the first
    reading at or past five seconds: a tick with last price zero counts no
    more than no tick. *)
Theorem zero_last_price_waits_to_timeout
    (tokens : gmap string kite.Instrument)
    (clients : list (option kite.TickerClient))
    (before after : list (Z * gmap string kite.KiteTicker))
    (since : Z) (cache : gmap string kite.KiteTicker)
    (exchange tradingSymbol : string) (instrument : kite.Instrument) :
  tokens !! (exchange ++ ":" ++ tradingSymbol)%string = Some instrument ->
  clients <> [] ->
  kite.subscribe_all clients (kite.inst_Token instrument) = None ->
  Forall (fun poll =>
            fst poll < kite.maxWaitTime
            /\ zero_or_absent (snd poll) (exchange ++ ":" ++ tradingSymbol)
            /\ zero_or_absent (snd poll) tradingSymbol) before ->
  kite.maxWaitTime <= since ->
  kite.addToBatchAndWait (Some tokens) clients
    (before ++ (since, cache) :: after) exchange tradingSymbol
  = Some (Some (kite.TimeoutWaiting (exchange ++ ":" ++ tradingSymbol)),
          length before).
Proof.
  intros Hinst Hclients Hsub Hbefore Hsince. unfold kite.addToBatchAndWait.
  rewrite Hinst.
  destruct (decide (length clients = O)) as [Hl|_];
    [by destruct clients|].
  rewrite Hsub. by rewrite wait_loop_times_out.
Qed.

Lemma zero_last_price_waits_to_timeout_witness :
  kite.addToBatchAndWait
    (Some {[ "NSE:INFY"%string := kite.mkInstrument 7 ]})
    [None; Some (kite.mkClient (fun _ => None))]
    zero_price_polls "NSE" "INFY"
  = Some (Some (kite.TimeoutWaiting "NSE:INFY"), 2%nat).
Proof.
  apply (zero_last_price_waits_to_timeout
           {[ "NSE:INFY"%string := kite.mkInstrument 7 ]}
           [None; Some (kite.mkClient (fun _ => None))]
           (take 2 zero_price_polls) []
           (5 * kite.Second)
           {[ "INFY"%string := kite.mkKiteTicker 7 "INFY" 0%float ]}
           "NSE" "INFY" (kite.mkInstrument 7)).
  - reflexivity.
  - discriminate.
  - reflexivity.
  - apply Forall_cons. split.
    + split; [reflexivity|].
      split; vm_compute; first [exact I | by left | by right].
    + apply Forall_cons. split; [|constructor].
      split; [reflexivity|].
      split; vm_compute; first [exact I | by left | by right].
  - vm_compute. discriminate.
Defined.

(** ** Further examples: the other cases of the header switch, the
    depth loop and the frame loop at their edges *)

Example header_ticker_ltp :
  header_ticker [5; 100]
  = (mkTicker 5 100 0 0 0 0 0 0 0 0 0 0 0 0 0 0 0 0 no_depth, []).
Proof. reflexivity. Qed.

Example header_ticker_quote_7 :
  let t := fst (header_ticker [5; 100; 110; 90; 95; 99; 1700000000]) in
  Token t = 5 /\ LastPrice t = 100 /\ High t = 110 /\ Low t = 90
  /\ Open t = 95 /\ Close t = 99 /\ ExchangeTimestamp t = 1700000000
  /\ PriceChange t = 0.
Proof. cbv zeta. repeat split. Qed.

Example header_ticker_quote_8 :
  let t := fst (header_ticker [5; 100; 110; 90; 95; 99; 3; 1700000000]) in
  Token t = 5 /\ LastPrice t = 100 /\ High t = 110 /\ Low t = 90
  /\ Open t = 95 /\ Close t = 99 /\ PriceChange t = 3
  /\ ExchangeTimestamp t = 1700000000.
Proof. cbv zeta. repeat split. Qed.

Example header_ticker_quote_11 :
  let t := fst (header_ticker [5; 100; 1; 2; 3; 4; 6; 110; 90; 95; 99]) in
  Token t = 5 /\ LastPrice t = 100 /\ LastTradedQuantity t = 1
  /\ AverageTradedPrice t = 2 /\ VolumeTraded t = 3 /\ TotalBuy t = 4
  /\ TotalSell t = 6 /\ High t = 110 /\ Low t = 90 /\ Open t = 95
  /\ Close t = 99 /\ ExchangeTimestamp t = 0.
Proof. cbv zeta. repeat split. Qed.

(** A ladder whose values are not whole groups makes the depth loop
    panic. *)
Example depth_loop_leftover :
  depth_loop 1 [10; 100; 1; 20] no_depth = Panic "index out of range".
Proof. reflexivity. Qed.

(** A tail of at most eight bytes after the complete frames is the end of
    the stream for the frame loop of [Read]. *)
Example Read_frames_bare_prefix :
  @Read_frames stored_zstd
    (exact ([0; 0; 0; 0; 0; 0; 0; 4; 40; 1; 2; 3]
            ++ [0; 0; 0; 0; 0; 0; 0; 5]))
  = ([Parsed [1; 2; 3]], Done).
Proof. vm_compute. reflexivity. Qed.

(** The truncated log under the stand-in codec: the complete frame is
    parsed, the packet of the truncated one is not, and the loop panics. *)
Example Read_frames_truncated_log :
  @Read_frames stored_zstd (exact truncated_log)
  = ([Parsed [1; 2; 3]], Crashed "slice bounds out of range")
  /\ @readMap stored_zstd bytes_marshalling (inl (exact truncated_log))
     = Some (Panic "slice bounds out of range").
Proof. split; vm_compute; reflexivity. Qed.

(** * More properties of the storage code *)

Lemma token_map_snoc (entries : list TickerMap) (ts : TickerMap)
    (m : gmap Z TickerMap) :
  token_map (entries ++ [ts]) m = <[tm_Token ts := ts]> (token_map entries m).
Proof. unfold token_map. by rewrite fold_left_app. Qed.

(** The map read from a file has, for a token, the last entry of that
    token, and what was there before for a token with no entry. *)
Lemma token_map_lookup (entries : list TickerMap) (m : gmap Z TickerMap)
    (k : Z) :
  token_map entries m !! k
  = match last (filter (fun ts => tm_Token ts = k) entries) with
    | Some ts => Some ts
    | None => m !! k
    end.
Proof.
  induction entries as [|ts entries IH] using rev_ind; [done|].
  rewrite token_map_snoc, filter_app.
  destruct (decide (tm_Token ts = k)) as [<-|Hne].
  - rewrite lookup_insert_eq.
    rewrite (filter_cons_True _ ts []) by done.
    by rewrite filter_nil, last_snoc.
  - rewrite lookup_insert_ne by done.
    rewrite (filter_cons_False _ ts []) by done.
    by rewrite filter_nil, app_nil_r.
Qed.

Section Snapshot.
Context `{Zstd} `{Marshalling}.

(** The loop of [readMap] walks through complete frames whose payloads
    decompress and unmarshal, adding their entries in file order. *)
Lemma readMap_loop_frames (records : list (list byte))
    (entriess : list (list TickerMap)) (fuel : nat) (rest extra : list byte)
    (m : gmap Z TickerMap) :
  Forall2 (fun r es => proto_Unmarshal r = inl es) records entriess ->
  Forall (fun r => decompress (compressed r) = inl r) records ->
  Forall (fun r => Z.of_nat (length (compressed r)) < 2 ^ 63) records ->
  (rest = [] -> forall r, last records = Some r -> compressed r <> []) ->
  readMap_loop (length records + fuel)
               (Slice (concat (map frame records) ++ rest) extra) m
  = readMap_loop fuel (Slice rest extra) (token_map (concat entriess) m).
Proof.
  intros Hun. revert fuel m.
  induction Hun as [|r es rs ess Hr _ IH]; intros fuel m Hinv Hsz Hlast.
  - done.
  - apply Forall_cons in Hinv as [Hd Hinv].
    apply Forall_cons in Hsz as [Hc Hsz].
    cbn [map concat length Nat.add]. unfold frame at 1.
    replace (((PutUint64 (Z.of_nat (length (compressed r))) ++ compressed r)
              ++ concat (map frame rs)) ++ rest)
      with (PutUint64 (Z.of_nat (length (compressed r))) ++ compressed r
            ++ (concat (map frame rs) ++ rest))
      by (by rewrite <- !app_assoc).
    rewrite readMap_loop_frame; [ | done | ].
    + rewrite Hd, Hr. rewrite IH; [ | done | done | ].
      * unfold token_map. by rewrite fold_left_app.
      * intros -> r' Hr'. apply Hlast; [ done | ].
        destruct rs; [done|exact Hr'].
    + destruct rs as [|r' rs].
      * destruct rest as [|x rest]; [|cbn [concat map app length]; lia].
        specialize (Hlast eq_refl r eq_refl).
        destruct (compressed r); [done|cbn [length]; lia].
      * cbn [map concat]. rewrite !length_app, frame_length. lia.
Qed.

(** X1.  The snapshot written by [saveFile] is read back by [readMap]:
    whatever the file held before, [readMap] returns the map of the
    entries the payload unmarshals to, in which a token has the last entry
    written for it. *)
Theorem snapshot_round_trip (fs : filesystem) (dateStr : string)
    (data : list byte) (entries : list TickerMap) (extra : list byte) :
  map_file dateStr ∉ denied fs ->
  decompress (compressed data) = inl data ->
  Z.of_nat (length (compressed data)) < 2 ^ 63 ->
  compressed data <> [] ->
  proto_Unmarshal data = inl entries ->
  readMap_of (fst (saveFile fs (map_file dateStr) data)) dateStr extra
  = Some (Ok (inl (token_map entries ∅)))
  /\ forall k, token_map entries ∅ !! k
               = last (filter (fun ts => tm_Token ts = k) entries).
Proof.
  intros Hok Hd Hsz Hne Hun. split.
  - unfold readMap_of, saveFile, ReadFile.
    destruct (decide (map_file dateStr ∈ denied fs)); [done|].
    cbn [fst files]. rewrite lookup_insert_eq. unfold readMap. cbn [elts].
    pose proof (readMap_loop_frames [data] [entries]
                  (S (length (frame data)) - 1) [] extra ∅) as E.
    cbn [map concat length] in E. rewrite !app_nil_r in E.
    replace (1 + (S (length (frame data)) - 1))%nat
      with (S (length (frame data))) in E by lia.
    rewrite E.
    + destruct (S (length (frame data)) - 1)%nat; reflexivity.
    + by repeat constructor.
    + by repeat constructor.
    + by repeat constructor.
    + intros _ r [= <-]. done.
  - intros k. rewrite token_map_lookup, lookup_empty.
    by destruct (last _).
Qed.

End Snapshot.

Section Readers.
Context `{Zstd} `{Marshalling}.

(** X2.  A frame whose payload does not decompress does not stop the frame
    loop of [Read]: the error is logged, the nil packet is handed to the
    parser, and the frames after it are read as usual. *)
Theorem Read_goes_on_after_corrupt_frame (before after : list (list byte))
    (c : list byte) (err : string) (extra : list byte) :
  Forall (fun r => decompress (compressed r) = inl r) (before ++ after) ->
  Forall (fun r => Z.of_nat (length (compressed r)) < 2 ^ 63)
         (before ++ after) ->
  decompress c = inr err ->
  c <> [] ->
  Z.of_nat (length c) < 2 ^ 63 ->
  (forall r, last after = Some r -> compressed r <> []) ->
  Read_frames
    (Slice (concat (map frame before) ++ raw_frame c
            ++ concat (map frame after)) extra)
  = (map Parsed before ++ Logged err :: Parsed [] :: map Parsed after, Done).
Proof.
  intros Hinv Hsz Hc Hne Hlen Hlast.
  apply Forall_app in Hinv as [Hinv1 Hinv2].
  apply Forall_app in Hsz as [Hsz1 Hsz2].
  unfold Read_frames. cbn [elts].
  pose proof (frames_length before) as Hb.
  pose proof (frames_length after) as Ha.
  set (file := concat (map frame before) ++ raw_frame c
               ++ concat (map frame after)).
  assert (Hfile : (length before + 8 + length after <= length file)%nat).
  { unfold file, raw_frame. rewrite !length_app, PutUint64_length. lia. }
  replace (S (length file))
    with (length before
          + S (length after
               + (length file - length before - length after)))%nat by lia.
  unfold file.
  rewrite Read_loop_frames; [ | done | done | ].
  2:{ intros Hnil. apply (f_equal length) in Hnil. unfold raw_frame in Hnil.
      rewrite !length_app, PutUint64_length in Hnil. cbn in Hnil. lia. }
  unfold raw_frame. rewrite <- app_assoc.
  rewrite Read_loop_frame; [ | done | ].
  2:{ destruct c; [done|cbn [length]; lia]. }
  rewrite Hc.
  rewrite <- (app_nil_r (concat (map frame after))).
  rewrite Read_loop_frames by done.
  rewrite Read_loop_short by (unfold len; cbn; lia).
  by rewrite app_nil_r.
Qed.

(** X3.  [readMap] stops at the first frame whose payload does not
    decompress: it returns the decoder's error and no map, whatever the
    frames before it held and whatever follows. *)
Theorem readMap_stops_at_corrupt_frame (records : list (list byte))
    (entriess : list (list TickerMap)) (c rest : list byte) (err : string)
    (extra : list byte) :
  Forall2 (fun r es => proto_Unmarshal r = inl es) records entriess ->
  Forall (fun r => decompress (compressed r) = inl r) records ->
  Forall (fun r => Z.of_nat (length (compressed r)) < 2 ^ 63) records ->
  decompress c = inr err ->
  c <> [] ->
  Z.of_nat (length c) < 2 ^ 63 ->
  readMap (inl (Slice (concat (map frame records) ++ raw_frame c ++ rest)
                      extra))
  = Some (Ok (inr err)).
Proof.
  intros Hun Hinv Hsz Hc Hne Hlen. unfold readMap. cbn [elts].
  pose proof (frames_length records) as Hr.
  set (file := concat (map frame records) ++ raw_frame c ++ rest).
  assert (Hfile : (length records + 8 <= length file)%nat).
  { unfold file, raw_frame. rewrite !length_app, PutUint64_length. lia. }
  replace (S (length file))
    with (length records + S (length file - length records))%nat by lia.
  unfold file.
  rewrite (readMap_loop_frames records entriess); [ | done | done | done | ].
  2:{ intros Hnil. apply (f_equal length) in Hnil. unfold raw_frame in Hnil.
      rewrite !length_app, PutUint64_length in Hnil. cbn in Hnil. lia. }
  unfold raw_frame. rewrite <- app_assoc.
  rewrite readMap_loop_frame; [ | done | ].
  2:{ destruct c; [done|cbn [length]; lia]. }
  by rewrite Hc.
Qed.

(** X4.  Both frame readers end on every file: a turn that does not panic
    shortens the slice by at least eight bytes, so the steps allowed for a
    slice (one more than its length) are never used up. *)
Theorem frame_readers_terminate (b : slice byte) :
  snd (Read_frames b) <> OutOfFuel /\ readMap (inl b) <> None.
Proof. split; [apply Read_frames_total|apply readMap_total]. Qed.

(** X5.  Bytes after the last complete frame, eight at most, are passed
    over in silence: the records of the complete frames are all read and
    the loop ends normally. *)
Theorem Read_ignores_short_tail (records : list (list byte))
    (tail extra : list byte) :
  Forall (fun r => decompress (compressed r) = inl r) records ->
  Forall (fun r => Z.of_nat (length (compressed r)) < 2 ^ 63) records ->
  (0 < length tail <= 8)%nat ->
  Read_frames (Slice (concat (map frame records) ++ tail) extra)
  = (map Parsed records, Done).
Proof.
  intros Hinv Hsz Htail. unfold Read_frames. cbn [elts].
  pose proof (frames_length records) as Hr.
  replace (S (length (concat (map frame records) ++ tail)))
    with (length records
          + (S (length (concat (map frame records) ++ tail))
             - length records))%nat by (rewrite length_app; lia).
  rewrite Read_loop_frames; [ | done | done | ].
  - rewrite Read_loop_short by (unfold len; cbn [elts]; lia).
    by rewrite app_nil_r.
  - intros ->. cbn in Htail. lia.
Qed.

End Readers.

Section AppendOnly.
Context `{Zstd}.

(** X6.  [appendToFile] never rewrites: after any run of appends, allowed
    or refused, the file begins with what it held before, and every other
    file is as it was. *)
Theorem appends_never_rewrite (records : list (list byte)) (fs : filesystem)
    (filename : string) :
  (exists suffix,
      file_contents (write_all fs filename records) filename
      = file_contents fs filename ++ suffix)
  /\ forall other, other <> filename ->
       files (write_all fs filename records) !! other = files fs !! other.
Proof.
  revert fs. induction records as [|r rs IH]; intros fs.
  - split; [exists []; by rewrite app_nil_r|done].
  - cbn [write_all fold_left].
    fold (write_all (fst (appendToFile fs filename r)) filename rs).
    destruct (IH (fst (appendToFile fs filename r))) as [[suffix Hs] Ho].
    unfold appendToFile in *.
    destruct (decide (filename ∈ denied fs)); cbn [fst] in *.
    + split; [by exists suffix|done].
    + split.
      * exists (frame r ++ suffix). rewrite Hs. unfold file_contents at 1.
        cbn [files]. rewrite lookup_insert_eq. cbn [default].
        unfold file_contents, id. by rewrite <- app_assoc.
      * intros other Hne. rewrite Ho by done. cbn [files].
        by rewrite lookup_insert_ne.
Qed.

End AppendOnly.

Lemma snapshot_round_trip_witness :
  @readMap_of stored_zstd bytes_marshalling
    (fst (@saveFile stored_zstd no_files (map_file "20240102") [5; 7; 5]))
    "20240102" [0; 0]
  = Some (Ok (inl (token_map
                     (map (fun b => mkTickerMap b "" "" "" "" 0%float 0%float
                                                b "" "") [5; 7; 5]) ∅)))
  /\ forall k,
       token_map (map (fun b => mkTickerMap b "" "" "" "" 0%float 0%float
                                            b "" "") [5; 7; 5]) ∅ !! k
       = last (filter (fun ts => tm_Token ts = k)
                 (map (fun b => mkTickerMap b "" "" "" "" 0%float 0%float
                                            b "" "") [5; 7; 5])).
Proof.
  apply (@snapshot_round_trip stored_zstd bytes_marshalling no_files
           "20240102" [5; 7; 5]).
  - unfold no_files. cbn [denied]. set_solver.
  - reflexivity.
  - vm_compute. reflexivity.
  - vm_compute. discriminate.
  - reflexivity.
Defined.

Lemma Read_goes_on_after_corrupt_frame_witness :
  @Read_frames stored_zstd
    (Slice (concat (map (@frame stored_zstd) [[1; 2; 3]])
            ++ raw_frame corrupt_payload
            ++ concat (map (@frame stored_zstd) [[7]])) [])
  = (map Parsed [[1; 2; 3]]
     ++ Logged "invalid input: magic number mismatch" :: Parsed []
     :: map Parsed [[7]], Done).
Proof.
  apply (@Read_goes_on_after_corrupt_frame stored_zstd
           [[1; 2; 3]] [[7]] corrupt_payload).
  - repeat constructor.
  - repeat constructor.
  - reflexivity.
  - discriminate.
  - vm_compute. reflexivity.
  - intros r [= <-]. vm_compute. discriminate.
Defined.

Lemma readMap_stops_at_corrupt_frame_witness :
  @readMap stored_zstd bytes_marshalling
    (inl (Slice (concat (map (@frame stored_zstd) [[5; 7]])
                 ++ raw_frame corrupt_payload ++ [9; 9; 9]) [0]))
  = Some (Ok (inr "invalid input: magic number mismatch"%string)).
Proof.
  apply (@readMap_stops_at_corrupt_frame stored_zstd bytes_marshalling
           [[5; 7]]
           [map (fun b => mkTickerMap b "" "" "" "" 0%float 0%float b "" "")
                [5; 7]]).
  - repeat constructor.
  - repeat constructor.
  - repeat constructor.
  - reflexivity.
  - discriminate.
  - vm_compute. reflexivity.
Defined.

Lemma Read_ignores_short_tail_witness :
  @Read_frames stored_zstd
    (Slice (concat (map (@frame stored_zstd) sample_records)
            ++ [0; 0; 0; 0; 0; 0; 0; 9]) [])
  = (map Parsed sample_records, Done).
Proof.
  apply (@Read_ignores_short_tail stored_zstd).
  - repeat constructor.
  - repeat constructor.
  - cbn [length]. lia.
Defined.

(** * More properties of the binary tick handler *)

Section Records.
Context `{PacketParser} `{Marshalling}.

Lemma packet_step_lot_size (m : gmap Z TickerMap) (message : slice byte)
    (t : Ticker) :
  Produced t ∈ fst (packet_step m message) ->
  exists tokenData,
    m !! Token t = Some tokenData /\ LotSize t = tm_LotSize tokenData.
Proof.
  unfold packet_step.
  destruct (hd2 ← sub message 0 2; packetSize ← Uint16 hd2;
            packet ← sub message 2 (wrap16 (packetSize + 2));
            mret (packetSize, packet)) as [[packetSize packet]|why];
    [|by intros ?%elem_of_nil].
  pose proof (decode_packet_logs packet) as Hlogs.
  destruct (decode_packet packet) as [logs decoded]. cbn [fst] in Hlogs.
  assert (Hnone : Produced t ∉ logs)
    by (rewrite Hlogs; apply header_ticker_logs).
  destruct decoded as [ticker|why]; [|done].
  destruct (if _ <? _ then _ else _) as [message'|why]; [|done].
  destruct (enrich m ticker) as [ticker'|why] eqn:Hen; [|done].
  apply enrich_ok in Hen as [tokenData [Htok ->]].
  cbn [fst]. intros [Hin|Hin]%elem_of_app; [done|].
  apply elem_of_cons in Hin as [[= ->]|Hin].
  - by exists tokenData.
  - destruct (json_Marshal _); [by apply elem_of_nil in Hin|].
    by apply list_elem_of_singleton in Hin.
Qed.

Lemma packet_loop_lot_size (m : gmap Z TickerMap) (n : nat)
    (message : slice byte) (t : Ticker) :
  Produced t ∈ fst (packet_loop m n message) ->
  exists tokenData,
    m !! Token t = Some tokenData /\ LotSize t = tm_LotSize tokenData.
Proof.
  revert message. induction n as [|n IH]; intros message.
  - by intros ?%elem_of_nil.
  - cbn [packet_loop].
    pose proof (packet_step_lot_size m message t) as Hstep.
    destruct (packet_step m message) as [evs [message'|why]]; [|done].
    specialize (IH message').
    destruct (packet_loop m n message') as [evs' o]. cbn [fst] in *.
    intros [Hin|Hin]%elem_of_app; auto.
Qed.

(** X7.  Every record the binary handler produces for a message has a
    token that is a key of the instrument map and carries that entry's lot
    size; this holds up to the point of a panic as well. *)
Theorem produced_records_carry_lot_size `{Zstd} (m : gmap Z TickerMap)
    (nowTimeValue : Z) (date : string) (fs : filesystem)
    (message : slice byte) (t : Ticker) :
  Produced t ∈ fst (snd (handle_message m nowTimeValue date fs message)) ->
  exists tokenData,
    m !! Token t = Some tokenData /\ LotSize t = tm_LotSize tokenData.
Proof.
  unfold handle_message.
  set (saved := if withinEquityTradingTime nowTimeValue
                   || withinMCXTradingTime nowTimeValue
                then _ else _).
  assert (Hsaved : Produced t ∉ snd saved).
  { unfold saved. destruct (_ || _); cbn [snd];
      [by intros [=]%list_elem_of_singleton|apply not_elem_of_nil]. }
  destruct saved as [fs' evs0]. cbn [snd] in Hsaved.
  destruct (hd2 ← sub message 0 2; Uint16 hd2) as [numOfPackets|why];
    [|done].
  destruct (0 <? numOfPackets); [|done].
  destruct (from message 2) as [message'|why]; [|done].
  pose proof (packet_loop_lot_size m (Z.to_nat numOfPackets) message' t)
    as Hloop.
  destruct (packet_loop m (Z.to_nat numOfPackets) message') as [evs o].
  cbn [fst snd] in *. intros [Hin|Hin]%elem_of_app; auto. done.
Qed.

End Records.

Lemma sub_to_len {T} (s : slice T) (lo : Z) :
  0 <= lo <= len s ->
  sub s lo (len s) = Ok (Slice (drop (Z.to_nat lo) (elts s)) (spare s)).
Proof.
  intros Hlo. unfold sub, cap, backing, len in *.
  replace ((0 <=? lo) && (lo <=? Z.of_nat (length (elts s)))
           && (Z.of_nat (length (elts s))
               <=? Z.of_nat (length (elts s) + length (spare s))))
    with true by (symmetry; rewrite !andb_true_iff, !Z.leb_le; lia).
  f_equal. f_equal.
  - rewrite drop_app_le by lia.
    rewrite take_app_le by (rewrite length_drop; lia).
    apply take_ge. rewrite length_drop. lia.
  - by rewrite Nat2Z.id, drop_app_length.
Qed.

Section Repeats.
Context `{PacketParser} `{Marshalling}.

(** X8.  The packet loop moves on in the message only while something is
    left after the packet.  When the packet reaches the end of the message,
    the message stays as it is, and every further turn the packet count
    asks for decodes and produces that same last packet again. *)
Theorem last_packet_is_repeated (m : gmap Z TickerMap) (message : slice byte)
    (packetSize : Z) (ticker : Ticker) (tokenData : TickerMap) (n : nat) :
  (hd2 ← sub message 0 2; Uint16 hd2) = Ok packetSize ->
  0 <= packetSize ->
  packetSize + 2 < 2 ^ 16 ->
  len message = packetSize + 2 ->
  snd (decode_packet (Slice (drop 2 (elts message)) (spare message)))
  = Ok ticker ->
  m !! Token ticker = Some tokenData ->
  packet_loop m n message
  = (concat
       (replicate n
          (fst (decode_packet (Slice (drop 2 (elts message)) (spare message)))
           ++ Produced (set_LotSize ticker (tm_LotSize tokenData))
           :: marshal_log (set_LotSize ticker (tm_LotSize tokenData)))),
     Done).
Proof.
  intros Hsize Hpos Hsmall Hlen Hdec Htok.
  assert (Hwrap : wrap16 (packetSize + 2) = len message)
    by (unfold wrap16; rewrite Z.mod_small; lia).
  assert (Hpacket : sub message 2 (wrap16 (packetSize + 2))
                    = Ok (Slice (drop 2 (elts message)) (spare message))).
  { rewrite Hwrap. by rewrite sub_to_len by lia. }
  assert (Hstep : packet_step m message
    = (fst (decode_packet (Slice (drop 2 (elts message)) (spare message)))
       ++ Produced (set_LotSize ticker (tm_LotSize tokenData))
       :: marshal_log (set_LotSize ticker (tm_LotSize tokenData)),
       Ok message)).
  { unfold packet_step. unfold mbind, res_bind, mret, res_ret in *.
    destruct (sub message 0 2) as [hd2|why]; [|done].
    rewrite Hsize, Hpacket.
    destruct (decode_packet _) as [logs decoded]. cbn [fst snd] in *.
    subst decoded.
    replace (wrap16 (packetSize + 2) <? len message) with false
      by (symmetry; apply Z.ltb_ge; lia).
    by rewrite (enrich_known m ticker tokenData Htok). }
  induction n as [|n IH]; [done|].
  cbn [packet_loop replicate concat]. by rewrite Hstep, IH.
Qed.

End Repeats.

Lemma last_packet_is_repeated_witness :
  @packet_loop words_parser bytes_marshalling one_instrument 3
    (exact one_packet_rest)
  = (concat
       (replicate 3
          ([] ++ [Produced
                    (mkTicker 5 100 0 0 0 0 0 0 0 0 0 0 0 0 0 0 0 75
                              no_depth)])),
     Done).
Proof.
  apply (@last_packet_is_repeated words_parser bytes_marshalling
           one_instrument (exact one_packet_rest) 8
           (mkTicker 5 100 0 0 0 0 0 0 0 0 0 0 0 0 0 0 0 0 no_depth)
           (mkTickerMap 5 "NIFTY" "NSE" "NIFTY" "" 0%float 0%float 75 "EQ"
                        "NSE") 3).
  - reflexivity.
  - lia.
  - reflexivity.
  - reflexivity.
  - reflexivity.
  - reflexivity.
Defined.

Lemma produced_records_carry_lot_size_witness :
  exists tokenData,
    one_instrument
      !! Token (mkTicker 5 100 0 0 0 0 0 0 0 0 0 0 0 0 0 0 0 75 no_depth)
    = Some tokenData
    /\ LotSize (mkTicker 5 100 0 0 0 0 0 0 0 0 0 0 0 0 0 0 0 75 no_depth)
       = tm_LotSize tokenData.
Proof.
  apply (@produced_records_carry_lot_size words_parser bytes_marshalling
           stored_zstd one_instrument 600 "20240102" no_files
           (exact message_three_fields)).
  vm_compute. do 2 apply list_elem_of_further. apply list_elem_of_here.
Defined.

(** A ladder with one or two values over whole groups ends the depth loop
    in an index panic, whatever was filled before. *)
Lemma depth_loop_ragged (lobDepth : Z) (groups : list group)
    (leftover : list Z) (d : Depth) :
  (length leftover = 1 \/ length leftover = 2)%nat ->
  depth_loop lobDepth (flat_groups groups ++ leftover) d
  = Panic "index out of range".
Proof.
  intros Hleft. revert d.
  induction groups as [|[[qty price] orders] gs IH]; intros d.
  - destruct leftover as [|a [|b [|c l]]]; cbn in *; try lia; done.
  - cbn [flat_groups flat_map app depth_loop]. fold (flat_groups gs).
    destruct (_ <? _); apply IH.
Qed.

(** X9.  A packet longer than 64 bytes whose ladder parses to a number of
    values that is not a multiple of three (one or two values over whole
    groups) does not decode: the depth loop indexes past the end and the
    handler panics. *)
Theorem ragged_depth_panics `{PacketParser} (packet : slice byte)
    (groups : list group) (leftover : list Z) :
  64 < len packet ->
  ParseMarketDepth (drop 64 (elts packet)) = flat_groups groups ++ leftover ->
  (length leftover = 1 \/ length leftover = 2)%nat ->
  snd (decode_packet packet) = Panic "index out of range".
Proof.
  intros Hlen Hparse Hleft. unfold decode_packet.
  destruct (header_ticker _) as [ticker logs].
  replace (64 <? len packet) with true by (symmetry; apply Z.ltb_lt; lia).
  unfold from.
  replace ((0 <=? 64) && (64 <=? len packet)) with true
    by (symmetry; rewrite andb_true_iff, !Z.leb_le; lia).
  cbn [elts snd]. change (Z.to_nat 64) with 64%nat.
  by rewrite Hparse, depth_loop_ragged.
Qed.

Lemma ragged_depth_panics_witness :
  snd (@decode_packet words_parser (exact ragged_depth_packet))
  = Panic "index out of range".
Proof.
  apply (@ragged_depth_panics words_parser (exact ragged_depth_packet)
           [(10, 100, 1)] [20]).
  - vm_compute. reflexivity.
  - vm_compute. reflexivity.
  - left. reflexivity.
Defined.

(** * More properties of the rotation *)

(** One turn of the batch loop, for a positive batch size and a start
    inside the universe. *)
Lemma rotation_loop_step (allTokens : slice Z) (mcxTokens : gset Z)
    (n nowTimeValue : Z) (fuel : nat) (start : Z) (isSubscribed : bool) :
  0 < n -> 0 <= start < len allTokens ->
  let active := active_batch allTokens mcxTokens n nowTimeValue start in
  let isSubscribed2 := 0 <? Z.of_nat (length active) in
  let next := rotation_loop fuel allTokens mcxTokens n nowTimeValue
                            (start + n) isSubscribed2 in
  rotation_loop (S fuel) allTokens mcxTokens n nowTimeValue start isSubscribed
  = ((if (0 <=? start - n) && isSubscribed
      then [Unsubscribe (previous_chunk allTokens n start)] else [])
     ++ (if isSubscribed2 then [SubscribeFull active] else [])
     ++ Slept :: fst (fst next),
     snd (fst next), snd next).
Proof.
  intros Hn Hstart. cbv zeta. cbn [rotation_loop].
  replace (start <? len allTokens) with true
    by (symmetry; apply Z.ltb_lt; lia).
  replace ((if len allTokens <? start + n then len allTokens else start + n)
           - start) with (Z.min n (len allTokens - start))
    by (destruct (len allTokens <? start + n) eqn:E;
        [apply Z.ltb_lt in E|apply Z.ltb_ge in E]; lia).
  fold (active_batch allTokens mcxTokens n nowTimeValue start).
  assert (Hprev : 0 <= start - n ->
            sub allTokens (start - n) start
            = Ok (Slice (previous_chunk allTokens n start)
                        (drop (Z.to_nat start) (backing allTokens)))).
  { intros Hp. unfold sub, previous_chunk.
    replace ((0 <=? start - n) && (start - n <=? start)
             && (start <=? cap allTokens)) with true
      by (symmetry; rewrite !andb_true_iff, !Z.leb_le;
          unfold cap, len in *; lia).
    f_equal. f_equal. unfold backing, len in *.
    replace (start - (start - n)) with n by lia.
    rewrite drop_app_le by lia.
    rewrite take_app_le by (rewrite length_drop; lia). done. }
  destruct (0 <=? start - n) eqn:Hp.
  - apply Z.leb_le in Hp. destruct isSubscribed.
    + rewrite (Hprev Hp). unfold mbind, res_bind, mret, res_ret.
      cbn [andb elts].
      destruct (0 <? Z.of_nat (length (active_batch _ _ _ _ _)));
        by destruct (rotation_loop fuel _ _ _ _ _ _) as [[evs3 b3] o].
    + cbn [andb app].
      destruct (0 <? Z.of_nat (length (active_batch _ _ _ _ _)));
        by destruct (rotation_loop fuel _ _ _ _ _ _) as [[evs3 b3] o].
  - cbn [andb app].
    destruct (0 <? Z.of_nat (length (active_batch _ _ _ _ _)));
      by destruct (rotation_loop fuel _ _ _ _ _ _) as [[evs3 b3] o].
Qed.

Lemma rotation_loop_end (allTokens : slice Z) (mcxTokens : gset Z)
    (n nowTimeValue : Z) (fuel : nat) (start : Z) (isSubscribed : bool) :
  len allTokens <= start ->
  rotation_loop fuel allTokens mcxTokens n nowTimeValue start isSubscribed
  = ([], isSubscribed, Done).
Proof.
  intros Hend.
  destruct fuel; cbn [rotation_loop];
    by replace (start <? len allTokens) with false
      by (symmetry; apply Z.ltb_ge; lia).
Qed.

Lemma subscribed_tokens_app (evs1 evs2 : list event) :
  subscribed_tokens (evs1 ++ evs2)
  = subscribed_tokens evs1 ++ subscribed_tokens evs2.
Proof. apply flat_map_app. Qed.

(** The batches of a pass, taken together from [start] on, subscribe the
    active tokens from [start] on, in the order of the universe. *)
Lemma rotation_loop_coverage (allTokens : slice Z) (mcxTokens : gset Z)
    (n nowTimeValue : Z) (fuel : nat) (start : Z) (isSubscribed : bool) :
  0 < n -> 0 <= start ->
  len allTokens - start <= Z.of_nat fuel ->
  subscribed_tokens
    (fst (fst (rotation_loop fuel allTokens mcxTokens n nowTimeValue start
                             isSubscribed)))
  = filter (fun t => withinTradingTime mcxTokens nowTimeValue t = true)
           (drop (Z.to_nat start) (elts allTokens)).
Proof.
  intros Hn. revert start isSubscribed.
  induction fuel as [|fuel IH]; intros start isSubscribed Hstart Hfuel.
  - rewrite rotation_loop_end by lia. cbn [fst subscribed_tokens flat_map].
    rewrite drop_ge; [done|]. unfold len in *. lia.
  - destruct (decide (start < len allTokens)) as [Hlt|Hge].
    2:{ rewrite rotation_loop_end by lia.
        cbn [fst subscribed_tokens flat_map].
        rewrite drop_ge; [done|]. unfold len in *. lia. }
    rewrite rotation_loop_step by lia. cbn [fst].
    rewrite !subscribed_tokens_app.
    replace (subscribed_tokens
               (if (0 <=? start - n) && isSubscribed
                then [Unsubscribe (previous_chunk allTokens n start)]
                else [])) with (@nil Z) by (by destruct (_ && _)).
    replace (subscribed_tokens
               (if 0 <? Z.of_nat (length (active_batch allTokens mcxTokens n
                                            nowTimeValue start))
                then [SubscribeFull (active_batch allTokens mcxTokens n
                                       nowTimeValue start)]
                else []))
      with (active_batch allTokens mcxTokens n nowTimeValue start).
    2:{ destruct (active_batch _ _ _ _ _) eqn:E; [done|].
        replace (0 <? Z.of_nat (length (z :: l))) with true
          by (symmetry; apply Z.ltb_lt; cbn [length]; lia).
        cbn [subscribed_tokens flat_map]. by rewrite app_nil_r. }
    change (subscribed_tokens (Slept :: ?l)) with (subscribed_tokens l).
    rewrite IH by lia. cbn [app]. unfold active_batch.
    rewrite <- filter_app. f_equal.
    replace (Z.to_nat (start + n)) with (Z.to_nat start + Z.to_nat n)%nat
      by lia.
    rewrite <- drop_drop.
    set (l := drop (Z.to_nat start) (elts allTokens)).
    assert (Hl : Z.of_nat (length l) = len allTokens - start)
      by (unfold l, len; rewrite length_drop; unfold len in *; lia).
    destruct (decide (n <= len allTokens - start)).
    + rewrite Z.min_l by lia. apply take_drop.
    + rewrite Z.min_r by lia. rewrite take_ge, drop_ge by lia.
      by rewrite app_nil_r.
Qed.

(** X10.  With a positive batch size a pass through the batches ends
    normally, and the tokens it subscribes, batch after batch, are exactly
    the tokens of the universe that are inside their trading window at the
    clock reading of the pass, each once for each time it is listed, in the
    order of the universe. *)
Theorem rotation_cycle_covers_active_tokens (allTokens : slice Z)
    (mcxTokens : gset Z) (n nowTimeValue : Z) (isSubscribed : bool) :
  0 < n ->
  snd (rotation_cycle allTokens mcxTokens n nowTimeValue isSubscribed) = Done
  /\ subscribed_tokens
       (fst (fst (rotation_cycle allTokens mcxTokens n nowTimeValue
                                 isSubscribed)))
     = filter (fun t => withinTradingTime mcxTokens nowTimeValue t = true)
              (elts allTokens).
Proof.
  intros Hn. unfold rotation_cycle. split.
  - apply rotation_loop_done; unfold len; lia.
  - rewrite rotation_loop_coverage by (unfold len; lia). done.
Qed.

Lemma rotation_cycle_covers_active_tokens_witness :
  snd (rotation_cycle five_tokens {[ 4 ]} 2 1000 true) = Done
  /\ subscribed_tokens
       (fst (fst (rotation_cycle five_tokens {[ 4 ]} 2 1000 true)))
     = filter (fun t => withinTradingTime {[ 4 ]} 1000 t = true)
              (elts five_tokens).
Proof. apply rotation_cycle_covers_active_tokens. lia. Defined.

Lemma previous_chunk_length (allTokens : slice Z) (n start : Z) :
  0 < n -> 0 <= start - n -> start <= len allTokens ->
  Z.of_nat (length (previous_chunk allTokens n start)) = n.
Proof.
  intros Hn Hp Hs. unfold previous_chunk, len in *.
  rewrite length_take, length_drop. lia.
Qed.

Lemma active_batch_length (allTokens : slice Z) (mcxTokens : gset Z)
    (n nowTimeValue start : Z) :
  0 < n ->
  Z.of_nat (length (active_batch allTokens mcxTokens n nowTimeValue start))
  <= n.
Proof.
  intros Hn. unfold active_batch.
  pose proof (length_filter
                (fun t => withinTradingTime mcxTokens nowTimeValue t = true)
                (take (Z.to_nat (Z.min n (len allTokens - start)))
                      (drop (Z.to_nat start) (elts allTokens)))) as Hf.
  rewrite length_take in Hf. lia.
Qed.

Lemma rotation_loop_sizes (allTokens : slice Z) (mcxTokens : gset Z)
    (n nowTimeValue : Z) (fuel : nat) (start : Z) (isSubscribed : bool) :
  0 < n -> 0 <= start ->
  Forall (well_sized n)
    (fst (fst (rotation_loop fuel allTokens mcxTokens n nowTimeValue start
                             isSubscribed))).
Proof.
  intros Hn. revert start isSubscribed.
  induction fuel as [|fuel IH]; intros start isSubscribed Hstart.
  - cbn [rotation_loop]. by destruct (start <? len allTokens).
  - destruct (decide (start < len allTokens)) as [Hlt|Hge];
      [|by rewrite rotation_loop_end by lia].
    rewrite rotation_loop_step by lia. cbn [fst].
    apply Forall_app. split; [|apply Forall_app; split].
    + destruct (0 <=? start - n) eqn:Hp; [|done].
      destruct isSubscribed; [|done]. apply Z.leb_le in Hp.
      constructor; [|done]. cbn [well_sized].
      apply previous_chunk_length; lia.
    + destruct (0 <? Z.of_nat (length _)) eqn:Hact; [|done].
      apply Z.ltb_lt in Hact. constructor; [|done]. cbn [well_sized].
      split; [done|]. by apply active_batch_length.
    + constructor; [done|]. apply IH. lia.
Qed.

(** X11.  With a positive batch size, every subscription a pass sends
    lists at least one and at most [n] tokens, and every unsubscription
    lists exactly [n] tokens: the whole chunk before, with the tokens of it
    that were outside their window and never subscribed. *)
Theorem rotation_messages_fit_batch_size (allTokens : slice Z)
    (mcxTokens : gset Z) (n nowTimeValue : Z) (isSubscribed : bool) :
  0 < n ->
  Forall (well_sized n)
    (fst (fst (rotation_cycle allTokens mcxTokens n nowTimeValue
                              isSubscribed))).
Proof. intros Hn. by apply rotation_loop_sizes. Qed.

Lemma rotation_messages_fit_batch_size_witness :
  Forall (well_sized 2)
    (fst (fst (rotation_cycle five_tokens {[ 4 ]} 2 1000 true))).
Proof. apply rotation_messages_fit_batch_size. lia. Defined.

Lemma size_list_to_set_le (l : list Z) :
  (size (list_to_set l : gset Z) <= length l)%nat.
Proof.
  induction l as [|x l IH]; [by rewrite list_to_set_nil, size_empty|].
  rewrite list_to_set_cons, size_union_alt, size_singleton. cbn [length].
  pose proof (subseteq_size (list_to_set l ∖ {[x]}) (list_to_set l : gset Z)
                (subseteq_difference_l _ _ _ (reflexivity _))). lia.
Qed.

Lemma bounded_along_prefix (n : Z) (evs : list event) (subscribed : gset Z)
    (k : nat) :
  bounded_along n subscribed evs ->
  Z.of_nat (size (in_flight_from subscribed (take k evs))) <= n.
Proof.
  revert subscribed k. induction evs as [|e evs IH]; intros F k [HF Hrest].
  - by rewrite take_nil.
  - destruct k as [|k]; [done|]. cbn [take]. by apply IH.
Qed.

Lemma rotation_loop_in_flight (allTokens : slice Z) (mcxTokens : gset Z)
    (n nowTimeValue : Z) (fuel : nat) (start : Z) (isSubscribed : bool)
    (subscribed : gset Z) :
  0 < n -> 0 <= start ->
  subscribed ⊆ list_to_set (previous_chunk allTokens n start) ->
  ((0 <=? start - n) && isSubscribed = false -> subscribed = ∅) ->
  bounded_along n subscribed
    (fst (fst (rotation_loop fuel allTokens mcxTokens n nowTimeValue start
                             isSubscribed))).
Proof.
  intros Hn. revert start isSubscribed subscribed.
  induction fuel as [|fuel IH]; intros start isSubscribed F Hstart HF Hoff.
  - assert (Hsize : Z.of_nat (size F) <= n).
    { pose proof (subseteq_size _ _ HF).
      pose proof (size_list_to_set_le (previous_chunk allTokens n start)).
      unfold previous_chunk in *. rewrite length_take in *. lia. }
    cbn [rotation_loop]. by destruct (start <? len allTokens).
  - assert (Hsize : Z.of_nat (size F) <= n).
    { pose proof (subseteq_size _ _ HF).
      pose proof (size_list_to_set_le (previous_chunk allTokens n start)).
      unfold previous_chunk in *. rewrite length_take in *. lia. }
    destruct (decide (start < len allTokens)) as [Hlt|Hge];
      [|by rewrite rotation_loop_end by lia].
    rewrite rotation_loop_step by lia. cbn [fst].
    set (active := active_batch allTokens mcxTokens n nowTimeValue start).
    assert (Hempty : Z.of_nat (size (∅ : gset Z)) <= n)
      by (rewrite size_empty; lia).
    assert (Hactive : Z.of_nat (size (list_to_set active : gset Z)) <= n).
    { pose proof (size_list_to_set_le active).
      pose proof (active_batch_length allTokens mcxTokens n nowTimeValue
                    start Hn). fold active in H0. lia. }
    assert (Hnext : forall isSubscribed2 (F2 : gset Z),
               F2 ⊆ list_to_set active ->
               (isSubscribed2 = false -> F2 = ∅) ->
               bounded_along n F2
                 (fst (fst (rotation_loop fuel allTokens mcxTokens n
                              nowTimeValue (start + n) isSubscribed2)))).
    { intros b F2 HF2 Hb. apply IH; [lia| |].
      - etrans; [exact HF2|]. unfold active, active_batch, previous_chunk.
        replace (start + n - n) with start by lia.
        intros x Hx. apply elem_of_list_to_set in Hx.
        apply elem_of_list_to_set.
        apply list_elem_of_filter in Hx as [_ Hx].
        destruct (decide (n <= len allTokens - start)).
        + by rewrite Z.min_l in Hx by lia.
        + rewrite Z.min_r in Hx by lia.
          rewrite take_ge in Hx
            by (rewrite length_drop; unfold len in *; lia).
          rewrite take_ge by (rewrite length_drop; unfold len in *; lia).
          done.
      - replace (start + n - n) with start by lia.
        replace (0 <=? start) with true by (symmetry; apply Z.leb_le; lia).
        cbn [andb]. exact Hb. }
    assert (Hafter : bounded_along n ∅
              ((if 0 <? Z.of_nat (length active)
                then [SubscribeFull active] else [])
               ++ Slept
               :: fst (fst (rotation_loop fuel allTokens mcxTokens n
                              nowTimeValue (start + n)
                              (0 <? Z.of_nat (length active)))))).
    { destruct (0 <? Z.of_nat (length active)) eqn:Hact.
      - cbn [app bounded_along apply_control]. split; [done|].
        rewrite union_empty_l_L. split; [done|]. by apply Hnext.
      - cbn [app bounded_along apply_control]. split; [done|].
        by apply Hnext. }
    destruct ((0 <=? start - n) && isSubscribed) eqn:Hun.
    + cbn [app bounded_along apply_control]. split; [done|].
      rewrite (subseteq_empty_difference_L _ _ HF).
      exact Hafter.
    + cbn [app]. rewrite (Hoff eq_refl). exact Hafter.
Qed.

(** X12.  In a pass that starts with nothing in flight, with a positive
    batch size, the subscriptions in flight never number more than [n],
    before and after every control message of the pass. *)
Theorem first_pass_keeps_one_batch_in_flight (allTokens : slice Z)
    (mcxTokens : gset Z) (n nowTimeValue : Z) (isSubscribed : bool)
    (k : nat) :
  0 < n ->
  Z.of_nat
    (size (in_flight
             (take k (fst (fst (rotation_cycle allTokens mcxTokens n
                                  nowTimeValue isSubscribed)))))) <= n.
Proof.
  intros Hn. apply (bounded_along_prefix n _ ∅ k).
  apply rotation_loop_in_flight; [done|done|set_solver|done].
Qed.

Lemma first_pass_keeps_one_batch_in_flight_witness :
  Z.of_nat
    (size (in_flight
             (take 4 (fst (fst (rotation_cycle five_tokens ∅ 2 600 true))))))
  <= 2.
Proof. apply first_pass_keeps_one_batch_in_flight. lia. Defined.

(** X13.  With a batch size of zero (what an unset or unparsable
    TA_FEED_INSTRUMENT_COUNT gives) and a universe that is not empty, the
    batch loop never leaves [start = 0]: however many turns it is given it
    has not ended, and it has subscribed nothing. *)
Theorem zero_batch_size_never_ends (allTokens : slice Z) (mcxTokens : gset Z)
    (nowTimeValue : Z) (fuel : nat) (isSubscribed : bool) :
  0 < len allTokens ->
  snd (rotation_loop fuel allTokens mcxTokens 0 nowTimeValue 0 isSubscribed)
  = OutOfFuel
  /\ subscribed_tokens
       (fst (fst (rotation_loop fuel allTokens mcxTokens 0 nowTimeValue 0
                                isSubscribed)))
     = [].
Proof.
  intros Hlen. revert isSubscribed.
  induction fuel as [|fuel IH]; intros isSubscribed.
  - cbn [rotation_loop].
    by replace (0 <? len allTokens) with true
      by (symmetry; apply Z.ltb_lt; lia).
  - cbn [rotation_loop].
    replace (0 <? len allTokens) with true by (symmetry; apply Z.ltb_lt; lia).
    change (0 + 0) with 0. change (0 - 0) with 0.
    replace (len allTokens <? 0) with false
      by (symmetry; apply Z.ltb_ge; lia).
    change (0 <=? 0) with true. change (Z.to_nat (0 - 0)) with 0%nat.
    rewrite take_0, filter_nil. cbn [length].
    change (0 <? Z.of_nat 0) with false. cbv iota.
    assert (Hsub : sub allTokens 0 0 = Ok (Slice [] (backing allTokens))).
    { unfold sub.
      replace ((0 <=? 0) && (0 <=? 0) && (0 <=? cap allTokens)) with true
        by (symmetry; rewrite !andb_true_iff, !Z.leb_le; unfold cap; lia).
      done. }
    destruct (IH false) as [Ho Hs].
    destruct isSubscribed.
    + rewrite Hsub. unfold mbind, res_bind, mret, res_ret. cbn [elts].
      destruct (rotation_loop fuel _ _ _ _ _ _) as [[evs3 b3] o].
      cbn [fst snd] in *. by split.
    + destruct (rotation_loop fuel _ _ _ _ _ _) as [[evs3 b3] o].
      cbn [fst snd] in *. by split.
Qed.

Lemma zero_batch_size_never_ends_witness :
  snd (rotation_loop 1000 five_tokens ∅ 0 600 0 true) = OutOfFuel
  /\ subscribed_tokens (fst (fst (rotation_loop 1000 five_tokens ∅ 0 600 0
                                                true)))
     = [].
Proof. apply zero_batch_size_never_ends. reflexivity. Defined.

(** X14.  With a negative batch size above the least [int], a universe
    that is not empty and the flag [isSubscribed] set (as it is when the
    rotation starts), the first turn takes the chunk [allTokens[-n:0]] to
    unsubscribe it, and the rotation panics before any message is sent.
    The least [int], [-2^63], is left out: there [0 - n] wraps to [n]
    itself in the code, the chunk is not taken, and the run is another. *)
Theorem negative_batch_size_panics (allTokens : slice Z) (mcxTokens : gset Z)
    (n nowTimeValue : Z) :
  - 2 ^ 63 < n < 0 ->
  0 < len allTokens ->
  rotation_cycle allTokens mcxTokens n nowTimeValue true
  = ([], true, Crashed "slice bounds out of range").
Proof.
  intros Hn Hlen. unfold rotation_cycle.
  destruct (length (elts allTokens)) as [|fuel] eqn:Hl;
    [unfold len in Hlen; lia|].
  cbn [rotation_loop].
  replace (0 <? len allTokens) with true by (symmetry; apply Z.ltb_lt; lia).
  replace (0 <=? 0 - n) with true by (symmetry; apply Z.leb_le; lia).
  unfold sub.
  replace ((0 <=? 0 - n) && (0 - n <=? 0) && (0 <=? cap allTokens))
    with false; [done|].
  symmetry. apply andb_false_iff. left. apply andb_false_iff. right.
  apply Z.leb_gt. lia.
Qed.

Lemma negative_batch_size_panics_witness :
  rotation_cycle five_tokens ∅ (-5) 600 true
  = ([], true, Crashed "slice bounds out of range").
Proof. apply negative_batch_size_panics; [lia|reflexivity]. Defined.

(** * More properties of the tick cache and the price lookups *)

Lemma store_tick_symbol (TokenSymbolMap : gmap Z string)
    (TickSymbolMap : gmap string kite.KiteTicker) (ticker : kite.KiteTicker) :
  kite.kt_TradingSymbol ticker <> ""%string ->
  store_tick TokenSymbolMap TickSymbolMap ticker
    !! kite.kt_TradingSymbol ticker = Some ticker.
Proof.
  intros Hne. unfold store_tick.
  destruct (decide (kite.kt_TradingSymbol ticker = ""%string)); [done|].
  destruct (TokenSymbolMap !! kite.kt_Token ticker) as [tokenSymbol|].
  - destruct (decide (tokenSymbol = kite.kt_TradingSymbol ticker)) as [->|].
    + by rewrite lookup_insert_eq.
    + by rewrite lookup_insert_ne, lookup_insert_eq.
  - by rewrite lookup_insert_eq.
Qed.

(** X15.  A tick stored by the ticker handler is what the price lookup
    returns next for its own "exchange:symbol" name: the last tick stored
    for an instrument is the one that is served. *)
Theorem stored_tick_is_served (TokenSymbolMap : gmap Z string)
    (TickSymbolMap : gmap string kite.KiteTicker) (ticker : kite.KiteTicker)
    (exchange tradingSymbol : string) :
  TokenSymbolMap !! kite.kt_Token ticker
  = Some (exchange ++ ":" ++ tradingSymbol)%string ->
  getLastPriceFromWebSocket
    (Some (store_tick TokenSymbolMap TickSymbolMap ticker))
    exchange tradingSymbol
  = inl (kite.kt_LastPrice ticker).
Proof.
  intros Htok. unfold getLastPriceFromWebSocket, store_tick.
  rewrite Htok. by rewrite lookup_insert_eq.
Qed.

Lemma stored_tick_is_served_witness :
  getLastPriceFromWebSocket
    (Some (store_tick {[ 7 := "NSE:INFY"%string ]}
             {[ "NSE:INFY"%string := kite.mkKiteTicker 7 "INFY" 1500%float ]}
             (kite.mkKiteTicker 7 "INFY" 1520.5%float)))
    "NSE" "INFY"
  = inl 1520.5%float.
Proof.
  apply (stored_tick_is_served {[ 7 := "NSE:INFY"%string ]}
           {[ "NSE:INFY"%string := kite.mkKiteTicker 7 "INFY" 1500%float ]}
           (kite.mkKiteTicker 7 "INFY" 1520.5%float) "NSE" "INFY").
  reflexivity.
Defined.

(** X16.  The bare trading symbol is shared by all exchanges: after a tick
    with a trading symbol is stored, a price lookup for that symbol on any
    exchange that has no "exchange:symbol" entry of its own returns the
    price of that tick, whatever exchange it came from. *)
Theorem bare_symbol_serves_any_exchange (TokenSymbolMap : gmap Z string)
    (TickSymbolMap : gmap string kite.KiteTicker) (ticker : kite.KiteTicker)
    (exchange : string) :
  kite.kt_TradingSymbol ticker <> ""%string ->
  store_tick TokenSymbolMap TickSymbolMap ticker
    !! (exchange ++ ":" ++ kite.kt_TradingSymbol ticker)%string = None ->
  getLastPriceFromWebSocket
    (Some (store_tick TokenSymbolMap TickSymbolMap ticker))
    exchange (kite.kt_TradingSymbol ticker)
  = inl (kite.kt_LastPrice ticker).
Proof.
  intros Hne Hkey. unfold getLastPriceFromWebSocket.
  by rewrite Hkey, store_tick_symbol.
Qed.

Lemma bare_symbol_serves_any_exchange_witness :
  getLastPriceFromWebSocket
    (Some (store_tick {[ 7 := "NSE:INFY"%string ]} ∅
             (kite.mkKiteTicker 7 "INFY" 1520.5%float)))
    "BSE" "INFY"
  = inl 1520.5%float.
Proof.
  apply (bare_symbol_serves_any_exchange {[ 7 := "NSE:INFY"%string ]} ∅
           (kite.mkKiteTicker 7 "INFY" 1520.5%float) "BSE").
  - discriminate.
  - vm_compute. reflexivity.
Defined.

(** X17.  An entry that is in the map when the call starts is served at
    once, with no look at the instruments, the clients or the clock, and
    whatever its last price is: a tick with last price zero that is already
    there is returned as 0, where the same tick arriving during the wait
    would not end it. *)
Theorem present_entry_is_served_at_once
    (m : gmap string kite.KiteTicker) (ticker : kite.KiteTicker)
    (exchange tradingSymbol : string)
    (BrokerInstrumentTokens : option (gmap string kite.Instrument))
    (TickerClients : list (option kite.TickerClient))
    (polls : list (Z * gmap string kite.KiteTicker))
    (after : option (gmap string kite.KiteTicker)) :
  m !! (exchange ++ ":" ++ tradingSymbol)%string = Some ticker ->
  getLastPriceFromWebSocketWithPriority BrokerInstrumentTokens TickerClients
    (Some m) polls after exchange tradingSymbol
  = Some (inl (kite.kt_LastPrice ticker))
  /\ (is_zero (kite.kt_LastPrice ticker) ->
      kite.has_price m (exchange ++ ":" ++ tradingSymbol)%string = false).
Proof.
  intros Hm. split.
  - unfold getLastPriceFromWebSocketWithPriority, getLastPriceFromWebSocket.
    by rewrite Hm.
  - intros Hz. unfold kite.has_price. rewrite Hm.
    by apply is_zero_not_positive.
Qed.

Lemma present_entry_is_served_at_once_witness :
  getLastPriceFromWebSocketWithPriority None [] 
    (Some {[ "NSE:INFY"%string := kite.mkKiteTicker 7 "INFY" 0%float ]})
    [] None "NSE" "INFY"
  = Some (inl 0%float)
  /\ (is_zero 0%float ->
      kite.has_price
        {[ "NSE:INFY"%string := kite.mkKiteTicker 7 "INFY" 0%float ]}
        "NSE:INFY" = false).
Proof.
  apply (present_entry_is_served_at_once
           {[ "NSE:INFY"%string := kite.mkKiteTicker 7 "INFY" 0%float ]}
           (kite.mkKiteTicker 7 "INFY" 0%float) "NSE" "INFY").
  reflexivity.
Defined.

(** The wait ends at the first reading inside the limit that shows a
    positive price under one of the two keys. *)
Lemma wait_loop_succeeds (symbolKey tradingSymbol : string)
    (before after : list (Z * gmap string kite.KiteTicker))
    (since : Z) (cache : gmap string kite.KiteTicker) (checks : nat) :
  Forall (fun poll => fst poll < kite.maxWaitTime
                      /\ kite.has_price (snd poll) symbolKey = false
                      /\ kite.has_price (snd poll) tradingSymbol = false)
         before ->
  since < kite.maxWaitTime ->
  kite.has_price cache symbolKey || kite.has_price cache tradingSymbol
  = true ->
  kite.wait_loop symbolKey tradingSymbol (before ++ (since, cache) :: after)
                 checks
  = Some (None, S (checks + length before)).
Proof.
  intros Hbefore Hsince Hprice. revert checks.
  induction Hbefore as [|[s c] before [Hs [Hk Ht]] _ IH]; intros checks.
  - cbn [app kite.wait_loop length].
    replace (since <? kite.maxWaitTime) with true
      by (symmetry; apply Z.ltb_lt; lia).
    rewrite Nat.add_0_r.
    destruct (kite.has_price cache symbolKey); [done|].
    cbn [orb] in Hprice. by rewrite Hprice.
  - cbn [app kite.wait_loop length fst snd] in *.
    replace (s <? kite.maxWaitTime) with true
      by (symmetry; apply Z.ltb_lt; lia).
    rewrite Hk, Ht, IH. do 3 f_equal. lia.
Qed.

(** X18.  [addToBatchAndWait] succeeds at the first reading, inside the
    five seconds, at which the map shows a last price above zero under
    "exchange:symbol" or under the bare symbol: it returns nil after
    looking at the map once for each reading up to that one, and does not
    look at later readings. *)
Theorem wait_ends_at_first_price
    (tokens : gmap string kite.Instrument)
    (clients : list (option kite.TickerClient))
    (before after : list (Z * gmap string kite.KiteTicker))
    (since : Z) (cache : gmap string kite.KiteTicker)
    (exchange tradingSymbol : string) (instrument : kite.Instrument) :
  tokens !! (exchange ++ ":" ++ tradingSymbol)%string = Some instrument ->
  clients <> [] ->
  kite.subscribe_all clients (kite.inst_Token instrument) = None ->
  Forall (fun poll =>
            fst poll < kite.maxWaitTime
            /\ kite.has_price (snd poll) (exchange ++ ":" ++ tradingSymbol)
               = false
            /\ kite.has_price (snd poll) tradingSymbol = false) before ->
  since < kite.maxWaitTime ->
  kite.has_price cache (exchange ++ ":" ++ tradingSymbol)
  || kite.has_price cache tradingSymbol = true ->
  kite.addToBatchAndWait (Some tokens) clients
    (before ++ (since, cache) :: after) exchange tradingSymbol
  = Some (None, S (length before)).
Proof.
  intros Hinst Hclients Hsub Hbefore Hsince Hprice.
  unfold kite.addToBatchAndWait. rewrite Hinst.
  destruct (decide (length clients = O)) as [Hl|_];
    [by destruct clients|].
  rewrite Hsub. by rewrite wait_loop_succeeds.
Qed.

Lemma wait_ends_at_first_price_witness :
  kite.addToBatchAndWait
    (Some {[ "NSE:INFY"%string := kite.mkInstrument 7 ]})
    [Some (kite.mkClient (fun _ => None))]
    (take 1 priced_polls
     ++ (100 * kite.Millisecond,
         {[ "INFY"%string := kite.mkKiteTicker 7 "INFY" 1520.5%float ]})
     :: [])
    "NSE" "INFY"
  = Some (None, 2%nat).
Proof.
  apply (wait_ends_at_first_price
           {[ "NSE:INFY"%string := kite.mkInstrument 7 ]}
           [Some (kite.mkClient (fun _ => None))]
           (take 1 priced_polls) [] (100 * kite.Millisecond)
           {[ "INFY"%string := kite.mkKiteTicker 7 "INFY" 1520.5%float ]}
           "NSE" "INFY" (kite.mkInstrument 7)).
  - reflexivity.
  - discriminate.
  - reflexivity.
  - apply Forall_cons. split; [|constructor].
    split; [reflexivity|]. split; reflexivity.
  - reflexivity.
  - vm_compute. reflexivity.
Defined.

(** X19.  When the symbol is not in the map at the start and every reading
    inside the five seconds shows no entry, or an entry with last price
    zero, under both keys, the call fails with the timeout of the wait:
    the map is not looked at again after the wait, so the failure stands
    also when by then the tick is there. *)
Theorem timeout_is_final
    (tokens : gmap string kite.Instrument)
    (clients : list (option kite.TickerClient))
    (m0 : gmap string kite.KiteTicker)
    (before after : list (Z * gmap string kite.KiteTicker))
    (since : Z) (cache : gmap string kite.KiteTicker)
    (final : option (gmap string kite.KiteTicker))
    (exchange tradingSymbol : string) (instrument : kite.Instrument) :
  m0 !! (exchange ++ ":" ++ tradingSymbol)%string = None ->
  m0 !! tradingSymbol = None ->
  tokens !! (exchange ++ ":" ++ tradingSymbol)%string = Some instrument ->
  clients <> [] ->
  kite.subscribe_all clients (kite.inst_Token instrument) = None ->
  Forall (fun poll =>
            fst poll < kite.maxWaitTime
            /\ zero_or_absent (snd poll) (exchange ++ ":" ++ tradingSymbol)
            /\ zero_or_absent (snd poll) tradingSymbol) before ->
  kite.maxWaitTime <= since ->
  getLastPriceFromWebSocketWithPriority (Some tokens) clients (Some m0)
    (before ++ (since, cache) :: after) final exchange tradingSymbol
  = Some (inr (FailedToAddToBatch
                 (kite.TimeoutWaiting
                    (exchange ++ ":" ++ tradingSymbol)%string))).
Proof.
  intros Hk Hs Hinst Hclients Hsub Hbefore Hsince.
  unfold getLastPriceFromWebSocketWithPriority, getLastPriceFromWebSocket.
  rewrite Hk, Hs. unfold kite.addToBatchAndWait. rewrite Hinst.
  destruct (decide (length clients = O)) as [Hl|_];
    [by destruct clients|].
  rewrite Hsub. by rewrite wait_loop_times_out.
Qed.

Lemma timeout_is_final_witness :
  getLastPriceFromWebSocketWithPriority
    (Some {[ "NSE:INFY"%string := kite.mkInstrument 7 ]})
    [Some (kite.mkClient (fun _ => None))] (Some ∅)
    (take 2 zero_price_polls ++ (5 * kite.Second, ∅) :: [])
    (Some {[ "NSE:INFY"%string := kite.mkKiteTicker 7 "INFY" 1520.5%float ]})
    "NSE" "INFY"
  = Some (inr (FailedToAddToBatch (kite.TimeoutWaiting "NSE:INFY"))).
Proof.
  apply (timeout_is_final
           {[ "NSE:INFY"%string := kite.mkInstrument 7 ]}
           [Some (kite.mkClient (fun _ => None))] ∅
           (take 2 zero_price_polls) [] (5 * kite.Second) ∅
           (Some {[ "NSE:INFY"%string
                    := kite.mkKiteTicker 7 "INFY" 1520.5%float ]})
           "NSE" "INFY" (kite.mkInstrument 7)).
  - reflexivity.
  - reflexivity.
  - reflexivity.
  - discriminate.
  - reflexivity.
  - apply Forall_cons. split.
    + split; [reflexivity|].
      split; vm_compute; first [exact I | by left | by right].
    + apply Forall_cons. split; [|constructor].
      split; [reflexivity|].
      split; vm_compute; first [exact I | by left | by right].
  - vm_compute. discriminate.
Defined.

(** * More properties of [Serve]: from the instruments to the
    subscriptions *)

Lemma select_tokens_acc (instruments : list InstrumentData)
    (allTokens : list Z) (equityTokens mcxTokens : gset Z) :
  fst (fst (fold_left select_step instruments
                      (allTokens, equityTokens, mcxTokens)))
  = allTokens
    ++ (id_Token <$> filter (fun d => in_universe d = true) instruments)
  /\ snd (fold_left select_step instruments
                    (allTokens, equityTokens, mcxTokens))
     = mcxTokens
       ∪ list_to_set
           (id_Token
              <$> filter (fun d => id_Segment d = "MCX-FUT"%string)
                         instruments).
Proof.
  revert allTokens equityTokens mcxTokens.
  induction instruments as [|d l IH]; intros a e m.
  - cbn [fold_left fst snd]. rewrite filter_nil, fmap_nil, app_nil_r.
    split; [done|]. by rewrite filter_nil, fmap_nil, list_to_set_nil,
                              union_empty_r_L.
  - cbn [fold_left select_step].
    destruct (decide (id_Segment d = "MCX-FUT"%string)) as [Hseg|Hseg].
    + assert (Hu : in_universe d = true).
      { unfold in_universe. rewrite (bool_decide_eq_true_2 _ Hseg).
        by rewrite !orb_true_r. }
      rewrite Hu. destruct (IH (a ++ [id_Token d]) e (m ∪ {[id_Token d]}))
        as [Ha Hm].
      rewrite Ha, Hm, !filter_cons_True by done.
      rewrite !fmap_cons, list_to_set_cons. split.
      * by rewrite <- app_assoc.
      * by rewrite (assoc_L (∪)).
    + rewrite (filter_cons_False (fun d => id_Segment d = "MCX-FUT"%string))
        by done.
      destruct (in_universe d) eqn:Hu.
      * destruct (IH (a ++ [id_Token d]) (e ∪ {[id_Token d]}) m) as [Ha Hm].
        rewrite Ha, Hm, filter_cons_True by done.
        rewrite fmap_cons. split; [by rewrite <- app_assoc|done].
      * destruct (IH a e m) as [Ha Hm].
        rewrite Ha, Hm, filter_cons_False by (by rewrite Hu). done.
Qed.

Lemma NoDup_fmap_eq {A B} (f : A -> B) (l : list A) (x y : A) :
  NoDup (f <$> l) -> x ∈ l -> y ∈ l -> f x = f y -> x = y.
Proof.
  induction l as [|a l IH]; [by intros _ ?%elem_of_nil|].
  rewrite fmap_cons, NoDup_cons. intros [Hnot Hnd] Hx Hy Hf.
  apply elem_of_cons in Hx as [->|Hx]; apply elem_of_cons in Hy as [->|Hy].
  - done.
  - exfalso. apply Hnot. rewrite Hf. by apply list_elem_of_fmap_2.
  - exfalso. apply Hnot. rewrite <- Hf. by apply list_elem_of_fmap_2.
  - by apply IH.
Qed.

Lemma filter_fmap_ext {A B} (f : A -> B) (P : B -> Prop) (Q : A -> Prop)
    `{!forall b, Decision (P b)} `{!forall a, Decision (Q a)} (l : list A) :
  (forall x, x ∈ l -> P (f x) <-> Q x) ->
  filter P (f <$> l) = f <$> filter Q l.
Proof.
  induction l as [|a l IH]; intros Hext; [done|].
  rewrite fmap_cons.
  assert (Ha : P (f a) <-> Q a) by (apply Hext; left).
  assert (IH' : filter P (f <$> l) = f <$> filter Q l)
    by (apply IH; intros x Hx; apply Hext; by right).
  destruct (decide (Q a)) as [Hq|Hq].
  - rewrite (filter_cons_True P) by (by apply Ha).
    rewrite (filter_cons_True Q) by done. by rewrite fmap_cons, IH'.
  - rewrite (filter_cons_False P) by (by rewrite Ha).
    by rewrite (filter_cons_False Q) by done.
Qed.

(** X20.  From the instrument table to the subscriptions: with distinct
    tokens and a positive batch size, a pass of the rotation over the
    universe [Serve] builds subscribes exactly the tokens of the
    instruments that are on NSE, NFO or NFO-OPT, or named SENSEX or BANKEX,
    or of segment MCX-FUT, and whose window (the commodity window for
    MCX-FUT, the equity window for the others) has the clock reading, in
    the order the table yields them.  An instrument outside the universe
    is never subscribed. *)
Theorem universe_is_what_gets_subscribed (instruments : list InstrumentData)
    (extra : list Z) (n nowTimeValue : Z) (isSubscribed : bool) :
  0 < n ->
  NoDup (id_Token <$> instruments) ->
  subscribed_tokens
    (fst (fst (rotation_cycle
                 (Slice (fst (fst (select_tokens instruments))) extra)
                 (snd (select_tokens instruments)) n nowTimeValue
                 isSubscribed)))
  = id_Token
      <$> filter (fun d => in_window nowTimeValue d = true)
                 (filter (fun d => in_universe d = true) instruments).
Proof.
  intros Hn Hnd. unfold rotation_cycle.
  rewrite rotation_loop_coverage by (unfold len; cbn [elts]; lia).
  cbn [elts]. change (Z.to_nat 0) with 0%nat. rewrite drop_0.
  unfold select_tokens.
  destruct (select_tokens_acc instruments [] ∅ ∅) as [Ha Hm].
  rewrite Ha, Hm. cbn [app].
  apply filter_fmap_ext. intros d Hd.
  apply list_elem_of_filter in Hd as [_ Hd].
  unfold withinTradingTime, in_window.
  destruct (decide (id_Segment d = "MCX-FUT"%string)) as [Hseg|Hseg].
  - rewrite decide_True; [done|].
    apply elem_of_union_r, elem_of_list_to_set, list_elem_of_fmap.
    exists d. split; [done|]. by apply list_elem_of_filter.
  - rewrite decide_False; [done|].
    intros [Hin|Hin]%elem_of_union; [by apply elem_of_empty in Hin|].
    apply elem_of_list_to_set, list_elem_of_fmap in Hin as [d' [Htok Hd']].
    apply list_elem_of_filter in Hd' as [Hseg' Hd'].
    apply Hseg. by rewrite (NoDup_fmap_eq id_Token instruments d d' Hnd Hd Hd').
Qed.

Lemma universe_is_what_gets_subscribed_witness :
  subscribed_tokens
    (fst (fst (rotation_cycle
                 (Slice (fst (fst (select_tokens sample_instruments))) [0])
                 (snd (select_tokens sample_instruments)) 2 1000 true)))
  = id_Token
      <$> filter (fun d => in_window 1000 d = true)
                 (filter (fun d => in_universe d = true) sample_instruments).
Proof.
  apply universe_is_what_gets_subscribed; [lia|].
  compute_done.
Defined.

(** ** The candles of [GetHistoricalMinutelyData] *)

Section candles.
Context `{Strconv} `{CandleParsers}.

Lemma row_loop_fields (fields : list string) : forall i ptr store candles c0,
  store !! ptr = Some c0 ->
  row_loop i fields ptr store candles =
    match candle_of_fields i fields c0 with
    | inl c => inl (<[ptr := c]> store, candles ++ replicate (length fields) ptr)
    | inr err => inr err
    end.
Proof.
  induction fields as [|d rest IH]; intros i ptr store candles c0 Hptr.
  - cbn. by rewrite list_insert_id, app_nil_r.
  - cbn [row_loop candle_of_fields]. rewrite Hptr. unfold default, id.
    destruct (assign_field i d c0) as [c|err]; [|done].
    assert (ptr < length store)%nat as Hlt by (by eapply lookup_lt_Some).
    rewrite (IH (S i) ptr (<[ptr := c]> store) (candles ++ [ptr]) c).
    + destruct (candle_of_fields (S i) rest c) as [c'|err]; [|done].
      rewrite list_insert_insert_eq. cbn [length replicate].
      by rewrite <- app_assoc.
    + by apply list_lookup_insert_eq.
Qed.

Lemma rows_loop_parsed (rows : list (list string)) (cs : list Candle) :
  Forall2 (fun row c => candle_of_fields 0 row new_Candle = inl c) rows cs ->
  forall store candles,
  rows_loop rows store candles =
    inl (store ++ cs, candles ++ row_pointers (length store) rows).
Proof.
  induction 1 as [|row c rows cs Hrow _ IH]; intros store candles.
  - cbn. by rewrite !app_nil_r.
  - cbn [rows_loop row_pointers].
    rewrite (row_loop_fields row 0 (length store) (store ++ [new_Candle])
               candles new_Candle) by (by apply list_lookup_middle).
    rewrite Hrow.
    replace (<[length store := c]> (store ++ [new_Candle])) with (store ++ [c])
      by (by rewrite insert_app_r_alt, Nat.sub_diag by lia).
    rewrite IH. rewrite length_app. cbn [length].
    replace (length store + 1)%nat with (S (length store)) by lia.
    by rewrite <- !app_assoc.
Qed.

Lemma rows_loop_unparsed (good : list (list string)) (cs : list Candle)
    (bad : list string) (rest : list (list string)) (err : string) :
  Forall2 (fun row c => candle_of_fields 0 row new_Candle = inl c) good cs ->
  candle_of_fields 0 bad new_Candle = inr err ->
  forall store candles,
  rows_loop (good ++ bad :: rest) store candles = inr err.
Proof.
  induction 1 as [|row c good cs Hrow _ IH]; intros Hbad store candles.
  - cbn [app rows_loop].
    rewrite (row_loop_fields bad 0 (length store) (store ++ [new_Candle])
               candles new_Candle) by (by apply list_lookup_middle).
    by rewrite Hbad.
  - cbn [app rows_loop].
    rewrite (row_loop_fields row 0 (length store) (store ++ [new_Candle])
               candles new_Candle) by (by apply list_lookup_middle).
    rewrite Hrow. by apply IH.
Qed.

Lemma row_pointers_read (rows : list (list string)) : forall cs pre,
  length rows = length cs ->
  (fun ptr => default new_Candle ((pre ++ cs) !! ptr))
    <$> row_pointers (length pre) rows =
  concat (zip_with (fun row c => replicate (length row) c) rows cs).
Proof.
  induction rows as [|row rows IH]; intros cs pre Hlen.
  - done.
  - destruct cs as [|c cs]; [done|].
    cbn [row_pointers zip_with concat].
    rewrite fmap_app, fmap_replicate.
    rewrite (list_lookup_middle pre cs c (length pre)) by done.
    cbn [default]. f_equal.
    specialize (IH cs (pre ++ [c])).
    rewrite length_app in IH. cbn [length] in IH.
    replace (length pre + 1)%nat with (S (length pre)) in IH by lia.
    rewrite <- app_assoc in IH. apply IH. by injection Hlen.
Qed.

(** X21.  When the status code is 200, the payload has data and every
    field of every row parses, [GetHistoricalMinutelyData] returns each
    row's candle once for every field of the row, not once for the row:
    the pointer is appended inside the loop over the fields.  All copies
    of a row's candle are the fully assigned candle, and a row without
    fields gives no candle. *)
Theorem candle_returned_once_per_field (status message : string)
    (rows : list (list string)) (cs : list Candle) :
  Forall2 (fun row c => candle_of_fields 0 row new_Candle = inl c) rows cs ->
  candles_of_response 200 status message (Some rows) =
    inl (concat (zip_with (fun row c => replicate (length row) c) rows cs)).
Proof.
  intros Hrows. unfold candles_of_response. cbn [Z.eqb Pos.eqb].
  rewrite (rows_loop_parsed rows cs Hrows [] []).
  cbn [app length]. f_equal.
  apply (row_pointers_read rows cs []).
  by eapply Forall2_length.
Qed.

(** X22.  One field that does not parse discards everything: whatever
    rows came before it and however many candles they had given, the
    function returns the error of that field and no candle. *)
Theorem unparsed_field_discards_all_candles (status message : string)
    (good : list (list string)) (cs : list Candle) (bad : list string)
    (rest : list (list string)) (err : string) :
  Forall2 (fun row c => candle_of_fields 0 row new_Candle = inl c) good cs ->
  candle_of_fields 0 bad new_Candle = inr err ->
  candles_of_response 200 status message (Some (good ++ bad :: rest)) =
    inr err.
Proof.
  intros Hgood Hbad. unfold candles_of_response. cbn [Z.eqb Pos.eqb].
  by rewrite (rows_loop_unparsed good cs bad rest err Hgood Hbad [] []).
Qed.

End candles.

Lemma candle_returned_once_per_field_witness :
  Forall2 (fun row c =>
             @candle_of_fields table_strconv sample_parsers 0 row new_Candle
             = inl c) sample_rows sample_candles
  /\ @candles_of_response table_strconv sample_parsers 200 "success" ""
       (Some sample_rows)
     = inl (replicate 7 (mkCandle 24 2 3000 2 3000 7 7)
            ++ replicate 7 (mkCandle 24 3000 3000 2 2 7 7)).
Proof.
  assert (Forall2 (fun row c =>
             @candle_of_fields table_strconv sample_parsers 0 row new_Candle
             = inl c) sample_rows sample_candles) as Hrows
    by (repeat constructor).
  split; [exact Hrows|].
  exact (@candle_returned_once_per_field table_strconv sample_parsers
           "success" "" sample_rows sample_candles Hrows).
Defined.

Lemma unparsed_field_discards_all_candles_witness :
  Forall2 (fun row c =>
             @candle_of_fields table_strconv sample_parsers 0 row new_Candle
             = inl c) (take 1 sample_rows) (take 1 sample_candles)
  /\ @candle_of_fields table_strconv sample_parsers 0 unparsed_row new_Candle
     = inr "strconv.ParseFloat: parsing: invalid syntax"%string
  /\ @candles_of_response table_strconv sample_parsers 200 "success" ""
       (Some (take 1 sample_rows ++ unparsed_row :: drop 1 sample_rows))
     = inr "strconv.ParseFloat: parsing: invalid syntax"%string.
Proof.
  assert (Forall2 (fun row c =>
             @candle_of_fields table_strconv sample_parsers 0 row new_Candle
             = inl c) (take 1 sample_rows) (take 1 sample_candles)) as Hgood
    by (repeat constructor).
  assert (@candle_of_fields table_strconv sample_parsers 0 unparsed_row
            new_Candle
          = inr "strconv.ParseFloat: parsing: invalid syntax"%string) as Hbad
    by reflexivity.
  split; [exact Hgood|]. split; [exact Hbad|].
  exact (@unparsed_field_discards_all_candles table_strconv sample_parsers
           "success" "" (take 1 sample_rows) (take 1 sample_candles)
           unparsed_row (drop 1 sample_rows) _ Hgood Hbad).
Defined.
